(** * payload_feeder: the frame catalog and the transmit loop

    A shallow embedding of [samples/payload_feeder.py].  The script opens a
    serial device, then cycles forever through a fixed catalog of display
    frames; each frame is serialised by [json.dumps] with the compact
    separators, encoded as UTF-8, terminated by a newline, written and
    flushed, and followed by a pause of [--delay] seconds.

    Modelling choices.
    - A Python [str] is a [string] whose characters stand for the code
      points 0..255; every text of the catalog is plain ASCII.
    - A frame ([Dict[str, Any]]) is an association list in insertion
      order, the order [json.dumps] emits; its values range over the
      JSON values other than floats.
    - The delay (a [float]) is a rational number, an infinity or NaN;
      [time.sleep] converts it to nanoseconds, rounding away from zero,
      and refuses what is negative or does not fit 64 bits.
    - [json.dumps], [json.loads], [str.encode] and [time.sleep] belong to
      the Python library, not to the script; they are modelled after their
      documented behaviour on the data the script can hand to them.
    - The serial port and the operator are an explicit [world] that
      answers every blocking call; an interrupt arrives inside a blocking
      call.  The loop is run with fuel and the result says whether it is
      still running. *)

From Stdlib Require Import ZArith QArith Qround String Ascii List Bool Arith Lia.
From Stdlib Require Import DecimalString.
From Stdlib Require DecimalPos.
Import ListNotations.

Set Warnings "-register-all".

Local Open Scope nat_scope.
Local Open Scope string_scope.
Local Open Scope list_scope.

(** ** Frame descriptors *)

Module Frame.

(** What a field of a frame may hold ([Any] in the annotation), as far
    as [json.dumps] can serialise it: [None], booleans, integers, text,
    lists and nested dicts with text keys.  Floats, tuples and dicts
    with keys that are not text are not modelled; the catalog has
    none. *)
Inductive value : Type :=
| VNull
| VBool (b : bool)
| VInt (z : Z)
| VStr (s : string)
| VList (items : list value)
| VDict (fields : list (string * value)).

Definition t : Type := list (string * value).

(** Text, integer or boolean: no [None] and no nested structure. *)
Definition is_primitive (v : value) : bool :=
  match v with
  | VBool _ | VInt _ | VStr _ => true
  | VNull | VList _ | VDict _ => false
  end.

Definition keys (f : t) : list string := map fst f.

(** [d[k] = v] on an insertion-ordered dict: an existing key keeps its
    position and takes the new value, a new key goes last. *)
Fixpoint set (k : string) (v : value) (f : t) : t :=
  match f with
  | [] => [(k, v)]
  | (k', v') :: rest =>
      if String.eqb k k' then (k, v) :: rest else (k', v') :: set k v rest
  end.

(** [dict(pairs)]. *)
Definition of_pairs (pairs : list (string * value)) : t :=
  fold_left (fun d kv => set (fst kv) (snd kv) d) pairs [].

(** No key occurs twice. *)
Fixpoint distinct (ks : list string) : bool :=
  match ks with
  | [] => true
  | k :: rest => negb (existsb (String.eqb k) rest) && distinct rest
  end.

(** The association list stands for a dict at every level: no dict
    repeats a key. *)
Fixpoint well_formed (v : value) : bool :=
  match v with
  | VList items => forallb well_formed items
  | VDict fields =>
      distinct (map fst fields)
      && forallb (fun kv => well_formed (snd kv)) fields
  | _ => true
  end.

(** Number of nodes of a value, counting every item of a list or a dict
    once more. *)
Fixpoint size (v : value) : nat :=
  match v with
  | VList items => S (list_sum (map (fun x => S (size x)) items))
  | VDict fields => S (list_sum (map (fun kv => S (size (snd kv))) fields))
  | _ => 1
  end.

Section Induction.

Variable P : value -> Prop.
Hypothesis HNull : P VNull.
Hypothesis HBool : forall b, P (VBool b).
Hypothesis HInt : forall z, P (VInt z).
Hypothesis HStr : forall s, P (VStr s).
Hypothesis HList : forall items, Forall P items -> P (VList items).
Hypothesis HDict :
  forall fields, Forall (fun kv => P (snd kv)) fields -> P (VDict fields).

(** Induction on values, with the hypothesis for every item. *)
Fixpoint value_induction (v : value) : P v :=
  match v with
  | VNull => HNull
  | VBool b => HBool b
  | VInt z => HInt z
  | VStr s => HStr s
  | VList items =>
      HList items
        ((fix all (l : list value) : Forall P l :=
            match l with
            | [] => Forall_nil P
            | x :: rest => Forall_cons x (value_induction x) (all rest)
            end) items)
  | VDict fields =>
      HDict fields
        ((fix all (l : list (string * value))
            : Forall (fun kv => P (snd kv)) l :=
            match l with
            | [] => Forall_nil _
            | (k, x) :: rest =>
                Forall_cons (k, x) (value_induction x) (all rest)
            end) fields)
  end.

End Induction.

End Frame.

Import Frame.

(** ** The catalog *)

(** [build_frames()]: a list literal of five dict literals. *)
Definition build_frames : list Frame.t :=
  [ [ ("line1", VStr "HELLO PI | {0x00}{0x01} | Scroll demo for a long line");
      ("line2", VStr "IP 192.168.0.99 | Uptime 12:34:56");
      ("scroll_speed_ms", VInt 200);
      ("page_timeout_ms", VInt 50000) ];
    [ ("line1", VStr "CPU LOAD");
      ("bar_value", VInt 730);
      ("bar_max", VInt 1000);
      ("page_timeout_ms", VInt 10000) ];
    [ ("line1", VStr "ALERT: Temp");
      ("line2", VStr "85C HOT!");
      ("blink", VBool true);
      ("ttl_ms", VInt 8000) ];
    [ ("line1", VStr "Backlight OFF demo");
      ("line2", VStr "It should go dark");
      ("backlight", VBool false);
      ("page_timeout_ms", VInt 4000) ];
    [ ("line1", VStr "Clear + Test Pattern");
      ("line2", VStr "Ensure wiring is OK");
      ("page_timeout_ms", VInt 4000) ] ].

(** ** Characters *)

Module Chars.

Definition dquote : ascii := "034"%char.
Definition backslash : ascii := "092"%char.
Definition newline : ascii := "010"%char.
Definition carriage : ascii := "013"%char.
Definition tab : ascii := "009"%char.
Definition backspace : ascii := "008"%char.
Definition formfeed : ascii := "012"%char.

Definition code (c : ascii) : N := N_of_ascii c.

(** The whitespace of the JSON grammar: space, tab, line feed, return. *)
Definition is_ws (c : ascii) : bool :=
  Ascii.eqb c " " || Ascii.eqb c tab || Ascii.eqb c newline
  || Ascii.eqb c carriage.

Definition is_digit (c : ascii) : bool :=
  (48 <=? code c)%N && (code c <=? 57)%N.

Definition hex_digit (n : N) : ascii :=
  if (n <? 10)%N then ascii_of_N (48 + n) else ascii_of_N (87 + n).

(** Value of one hexadecimal digit, either case, as [int(esc, 16)]. *)
Definition hex_value (c : ascii) : option N :=
  let n := code c in
  if is_digit c then Some (n - 48)%N
  else if (97 <=? n)%N && (n <=? 102)%N then Some (n - 87)%N
  else if (65 <=? n)%N && (n <=? 70)%N then Some (n - 55)%N
  else None.

End Chars.

Import Chars.

(** ** json.dumps with the compact separators *)

Module Dumps.

(** [ESCAPE_DCT] and the fallback of [py_encode_basestring_ascii]: the
    characters outside space..tilde, the quote and the backslash are
    escaped, the others copied. *)
Definition escape_char (c : ascii) : string :=
  if Ascii.eqb c dquote then String backslash (String dquote EmptyString)
  else if Ascii.eqb c backslash then String backslash (String backslash EmptyString)
  else if Ascii.eqb c newline then String backslash "n"
  else if Ascii.eqb c carriage then String backslash "r"
  else if Ascii.eqb c tab then String backslash "t"
  else if Ascii.eqb c backspace then String backslash "b"
  else if Ascii.eqb c formfeed then String backslash "f"
  else if (32 <=? code c)%N && (code c <=? 126)%N then String c EmptyString
  else
    String backslash
      (String "u"
         (String "0"
            (String "0"
               (String (hex_digit (code c / 16))
                  (String (hex_digit (code c mod 16)) EmptyString))))).

Fixpoint escape (s : string) : string :=
  match s with
  | EmptyString => EmptyString
  | String c rest => escape_char c ++ escape rest
  end.

Definition encode_basestring_ascii (s : string) : string :=
  String dquote (escape s ++ String dquote EmptyString).

(** [int.__repr__]. *)
Definition int_repr (z : Z) : string := NilZero.string_of_int (Z.to_int z).

(** The encoder proper: [null], [true], [false], integers, text, and
    lists and dicts with their items joined by the item separator, the
    key and the value of an item by the key separator. *)
Fixpoint encode_value (v : value) : string :=
  match v with
  | VNull => "null"
  | VBool true => "true"
  | VBool false => "false"
  | VInt z => int_repr z
  | VStr s => encode_basestring_ascii s
  | VList items =>
      "[" ++
      (fix join (l : list value) : string :=
         match l with
         | [] => EmptyString
         | x :: rest =>
             match rest with
             | [] => encode_value x
             | _ :: _ => (encode_value x ++ "," ++ join rest)%string
             end
         end) items
      ++ "]"
  | VDict fields =>
      "{" ++
      (fix join (l : list (string * value)) : string :=
         match l with
         | [] => EmptyString
         | (k, x) :: rest =>
             match rest with
             | [] =>
                 (encode_basestring_ascii k ++ ":" ++ encode_value x)%string
             | _ :: _ =>
                 (encode_basestring_ascii k ++ ":" ++ encode_value x
                  ++ "," ++ join rest)%string
             end
         end) fields
      ++ "}"
  end.

(** The two inner loops of the encoder, by themselves. *)
Fixpoint join_items (l : list value) : string :=
  match l with
  | [] => EmptyString
  | x :: rest =>
      match rest with
      | [] => encode_value x
      | _ :: _ => encode_value x ++ "," ++ join_items rest
      end
  end.

Fixpoint join_fields (l : list (string * value)) : string :=
  match l with
  | [] => EmptyString
  | (k, x) :: rest =>
      match rest with
      | [] => encode_basestring_ascii k ++ ":" ++ encode_value x
      | _ :: _ =>
          encode_basestring_ascii k ++ ":" ++ encode_value x
          ++ "," ++ join_fields rest
      end
  end.

(** The text [json.dumps] returns, when it returns. *)
Definition dumps (f : Frame.t) : string := encode_value (VDict f).

(** The interpreter refuses to convert to decimal an integer of more
    than 4300 digits ([sys.int_info.default_max_str_digits]). *)
Definition max_str_digits : nat := 4300.

Definition too_long (z : Z) : bool :=
  Nat.ltb max_str_digits (String.length (int_repr (Z.abs z))).

(** [json.dumps] raises [ValueError] on a value that holds such an
    integer. *)
Fixpoint raises (v : value) : bool :=
  match v with
  | VInt z => too_long z
  | VList items => existsb raises items
  | VDict fields => existsb (fun kv => raises (snd kv)) fields
  | _ => false
  end.

End Dumps.

(** ** str.encode("utf-8") and the frame delimiter *)

Definition bytes : Type := list Byte.byte.

Module Utf8.

(** One byte below U+0080, two bytes from U+0080 to U+00FF. *)
Definition encode_char (c : ascii) : bytes :=
  let n := code c in
  if (n <? 128)%N then [byte_of_ascii c]
  else [byte_of_ascii (ascii_of_N (192 + n / 64));
        byte_of_ascii (ascii_of_N (128 + n mod 64))].

Fixpoint encode (s : string) : bytes :=
  match s with
  | EmptyString => []
  | String c rest => encode_char c ++ encode rest
  end.

End Utf8.

Definition LF : Byte.byte := Byte.x0a.

(** The message of line 80: the compact JSON text of the frame, encoded
    as UTF-8, followed by the line feed. *)
Definition wire (f : Frame.t) : bytes :=
  Utf8.encode (Dumps.dumps f) ++ [LF].


(** ** json.loads

    The decoder follows [JSONObject], [scanstring] (strict mode) and the
    number pattern of [json.scanner].  [None] stands both for a
    [JSONDecodeError] and for a document whose value has no counterpart
    in [Frame.value] (null, a float, a nested list or object, a code
    point above U+00FF). *)

Module Loads.

Fixpoint skip_ws (s : string) : string :=
  match s with
  | EmptyString => EmptyString
  | String c rest => if is_ws c then skip_ws rest else s
  end.

(** The [BACKSLASH] table of the decoder. *)
Definition unescape (c : ascii) : option ascii :=
  if Ascii.eqb c dquote then Some dquote
  else if Ascii.eqb c backslash then Some backslash
  else if Ascii.eqb c "/" then Some "/"%char
  else if Ascii.eqb c "b" then Some backspace
  else if Ascii.eqb c "f" then Some formfeed
  else if Ascii.eqb c "n" then Some newline
  else if Ascii.eqb c "r" then Some carriage
  else if Ascii.eqb c "t" then Some tab
  else None.

Definition hex4 (a b c d : ascii) : option N :=
  match hex_value a, hex_value b, hex_value c, hex_value d with
  | Some x, Some y, Some z, Some t => Some (((x * 16 + y) * 16 + z) * 16 + t)%N
  | _, _, _, _ => None
  end.

Definition cons_char (c : ascii) (r : option (string * string))
  : option (string * string) :=
  match r with
  | Some (text, rest) => Some (String c text, rest)
  | None => None
  end.

(** [scanstring s]: [s] starts just after the opening quote; the result
    is the decoded text and what follows the closing quote. *)
Fixpoint scanstring (s : string) : option (string * string) :=
  match s with
  | EmptyString => None
  | String c r =>
      if Ascii.eqb c dquote then Some (EmptyString, r)
      else if Ascii.eqb c backslash then
        match r with
        | EmptyString => None
        | String e r1 =>
            if Ascii.eqb e "u" then
              match r1 with
              | String h1 (String h2 (String h3 (String h4 r2))) =>
                  match hex4 h1 h2 h3 h4 with
                  | Some n =>
                      if (n <? 256)%N
                      then cons_char (ascii_of_N n) (scanstring r2)
                      else None
                  | None => None
                  end
              | _ => None
              end
            else
              match unescape e with
              | Some x => cons_char x (scanstring r1)
              | None => None
              end
        end
      else if (code c <? 32)%N then None
      else cons_char c (scanstring r)
  end.

(** The longest run of digits at the head of [s], and the rest. *)
Fixpoint digits (s : string) : string * string :=
  match s with
  | EmptyString => (EmptyString, EmptyString)
  | String c rest =>
      if is_digit c
      then let (ds, tl) := digits rest in (String c ds, tl)
      else (EmptyString, s)
  end.

Fixpoint int_of_digits (acc : Z) (s : string) : Z :=
  match s with
  | EmptyString => acc
  | String c rest => int_of_digits (10 * acc + Z.of_N (code c - 48)) rest
  end.

Definition starts_with_digit (s : string) : bool :=
  match s with
  | String c _ => is_digit c
  | EmptyString => false
  end.

(** Whether a fraction or an exponent follows the integer part, which
    makes the number a float. *)
Definition float_tail (s : string) : bool :=
  match s with
  | String c rest =>
      if Ascii.eqb c "." then starts_with_digit rest
      else if Ascii.eqb c "e" || Ascii.eqb c "E" then
        match rest with
        | String g rest' =>
            if Ascii.eqb g "+" || Ascii.eqb g "-"
            then starts_with_digit rest'
            else is_digit g
        | EmptyString => false
        end
      else false
  | EmptyString => false
  end.

(** The integer part is [0] or a non-zero digit followed by digits;
    [int] refuses more than 4300 of them. *)
Definition scan_unsigned (s : string) : option (Z * string) :=
  match s with
  | String c rest =>
      if is_digit c then
        let (ds, tl) :=
          if Ascii.eqb c "0" then (EmptyString, rest) else digits rest in
        if float_tail tl then None
        else if Nat.ltb Dumps.max_str_digits (String.length (String c ds))
        then None
        else Some (int_of_digits 0 (String c ds), tl)
      else None
  | EmptyString => None
  end.

Definition scan_number (s : string) : option (Z * string) :=
  match s with
  | String c rest =>
      if Ascii.eqb c "-" then
        match scan_unsigned rest with
        | Some (z, tl) => Some (- z, tl)%Z
        | None => None
        end
      else scan_unsigned s
  | EmptyString => None
  end.

Fixpoint strip_prefix (p s : string) : option string :=
  match p, s with
  | EmptyString, _ => Some s
  | String a p', String b s' =>
      if Ascii.eqb a b then strip_prefix p' s' else None
  | String _ _, EmptyString => None
  end.

(** [scan_once], [JSONObject] and [JSONArray].  [members] starts just
    after the opening quote of a key and [elements] at a value.  Every
    call consumes a character before it calls another, so the length of
    the text (and one) is fuel enough. *)
Fixpoint scan_once (fuel : nat) (s : string) : option (value * string) :=
  match fuel with
  | O => None
  | S fuel' =>
      match s with
      | EmptyString => None
      | String c rest =>
          if Ascii.eqb c dquote then
            match scanstring rest with
            | Some (text, tl) => Some (VStr text, tl)
            | None => None
            end
          else if Ascii.eqb c "{" then
            match skip_ws rest with
            | EmptyString => None
            | String d rest' =>
                if Ascii.eqb d "}" then Some (VDict [], rest')
                else if Ascii.eqb d dquote then
                  match members fuel' rest' [] with
                  | Some (pairs, tl) => Some (VDict (Frame.of_pairs pairs), tl)
                  | None => None
                  end
                else None
            end
          else if Ascii.eqb c "[" then
            match skip_ws rest with
            | EmptyString => None
            | String d rest' =>
                if Ascii.eqb d "]" then Some (VList [], rest')
                else
                  match elements fuel' (String d rest') [] with
                  | Some (items, tl) => Some (VList items, tl)
                  | None => None
                  end
            end
          else
            match strip_prefix "null" s, strip_prefix "true" s,
                  strip_prefix "false" s with
            | Some tl, _, _ => Some (VNull, tl)
            | None, Some tl, _ => Some (VBool true, tl)
            | None, None, Some tl => Some (VBool false, tl)
            | None, None, None =>
                match scan_number s with
                | Some (z, tl) => Some (VInt z, tl)
                | None => None
                end
            end
      end
  end

with members (fuel : nat) (s : string) (pairs : list (string * value))
  : option (list (string * value) * string) :=
  match fuel with
  | O => None
  | S fuel' =>
      match scanstring s with
      | None => None
      | Some (key, s1) =>
          match skip_ws s1 with
          | EmptyString => None
          | String c s2 =>
              if Ascii.eqb c ":" then
                match scan_once fuel' (skip_ws s2) with
                | None => None
                | Some (v, s3) =>
                    let pairs' := pairs ++ [(key, v)] in
                    match skip_ws s3 with
                    | EmptyString => None
                    | String d s4 =>
                        if Ascii.eqb d "}" then Some (pairs', s4)
                        else if Ascii.eqb d "," then
                          match skip_ws s4 with
                          | EmptyString => None
                          | String q s5 =>
                              if Ascii.eqb q dquote
                              then members fuel' s5 pairs'
                              else None
                          end
                        else None
                    end
                end
              else None
          end
      end
  end

with elements (fuel : nat) (s : string) (items : list value)
  : option (list value * string) :=
  match fuel with
  | O => None
  | S fuel' =>
      match scan_once fuel' s with
      | None => None
      | Some (v, s1) =>
          let items' := items ++ [v] in
          match skip_ws s1 with
          | EmptyString => None
          | String d s2 =>
              if Ascii.eqb d "]" then Some (items', s2)
              else if Ascii.eqb d "," then elements fuel' (skip_ws s2) items'
              else None
          end
      end
  end.

(** [json.loads(s)]: one value, with white space allowed around it and
    nothing else after it. *)
Definition loads (s : string) : option value :=
  let s0 := skip_ws s in
  match scan_once (S (String.length s0)) s0 with
  | Some (v, tl) =>
      match skip_ws tl with
      | EmptyString => Some v
      | String _ _ => None
      end
  | None => None
  end.

End Loads.

(** ** The serial port, the clock and the operator *)

(** The exceptions that can leave a call of [main]. *)
Inductive exn : Type :=
| SerialException      (* the port cannot be opened, or a write or flush fails *)
| KeyboardInterrupt    (* the operator's interrupt signal *)
| ValueError           (* a negative or NaN pause, an integer too long to print *)
| OverflowError        (* a pause that does not fit the clock *)
| ZeroDivisionError    (* [idx % 0] *)
| IndexError.

(** A Python [float], as far as [time.sleep] tells floats apart: a
    finite value, an infinity with its sign, or NaN. *)
Inductive pyfloat : Type :=
| Finite (q : Q)
| Infinity (negative : bool)
| NaN.

(** The conversion of a number of seconds to the nanoseconds of the
    clock rounds away from zero.  The product is taken exactly here; the
    interpreter takes it in double precision, which differs by one
    rounding and matters only within a microsecond of the limits. *)
Definition nanoseconds (q : Q) : Z :=
  if Qle_bool 0 q
  then Qceiling (q * (1000000000 # 1))
  else Qfloor (q * (1000000000 # 1)).

(** What [time.sleep(secs)] raises before any waiting: [ValueError] for
    NaN, [OverflowError] when the nanoseconds do not fit a signed 64-bit
    integer, [ValueError] when they are negative; nothing otherwise. *)
Definition sleep_error (secs : pyfloat) : option exn :=
  match secs with
  | NaN => Some ValueError
  | Infinity _ => Some OverflowError
  | Finite q =>
      let n := nanoseconds q in
      if ((n <? - 2 ^ 63) || (2 ^ 63 <=? n))%Z then Some OverflowError
      else if (n <? 0)%Z then Some ValueError
      else None
  end.

(** How a blocking call ends. *)
Inductive reply : Type :=
| Done
| Fault
| Interrupt.

Definition reply_done (r : reply) : bool :=
  match r with
  | Done => true
  | _ => false
  end.

(** The environment of one run.  The calls of each kind are numbered
    from 0 in the order the program makes them.  The interrupt signal is
    taken to arrive while the process is inside one of its three blocking
    calls ([ser.write], [ser.flush], [time.sleep]), where it spends its
    time; a signal caught between two calls, which [main] handles the
    same way if it is inside the [try], is not part of a [world]. *)
Record world : Type := {
  serial_opens : bool;
  write_reply : nat -> reply;
  flush_reply : nat -> reply;
  sleep_signal : nat -> bool
}.

(** What an observer of the process sees. *)
Inductive event : Type :=
| Open (device : string) (baud : Z) (timeout : Z) (ok : bool)
| Write (data : bytes) (r : reply)
| Flush (r : reply)
| Sleep (secs : pyfloat) (r : reply)
| Close.

Definition trace : Type := list event.

Definition is_write (e : event) : bool :=
  match e with Write _ _ => true | _ => false end.
Definition is_flush (e : event) : bool :=
  match e with Flush _ => true | _ => false end.
Definition is_sleep (e : event) : bool :=
  match e with Sleep _ _ => true | _ => false end.
Definition is_close (e : event) : bool :=
  match e with Close => true | _ => false end.
Definition is_open (e : event) : bool :=
  match e with Open _ _ _ _ => true | _ => false end.

(** Number of calls of one kind recorded so far. *)
Definition calls (kind : event -> bool) (tr : trace) : nat :=
  length (filter kind tr).

(** ** Computations: a trace, exceptions, and fuel *)

Inductive result (A : Type) : Type :=
| Ret (a : A)
| Raise (e : exn)
| Running.

Arguments Ret {A} a.
Arguments Raise {A} e.
Arguments Running {A}.

Definition M (A : Type) : Type := trace -> trace * result A.

Definition ret {A : Type} (a : A) : M A := fun tr => (tr, Ret a).

Definition raise {A : Type} (e : exn) : M A := fun tr => (tr, Raise e).

Definition running {A : Type} : M A := fun tr => (tr, Running).

Definition bind {A B : Type} (m : M A) (k : A -> M B) : M B :=
  fun tr =>
    match m tr with
    | (tr', Ret a) => k a tr'
    | (tr', Raise e) => (tr', Raise e)
    | (tr', Running) => (tr', Running)
    end.

Declare Scope py_scope.
Delimit Scope py_scope with py.
Notation "x <- m ;; k" := (bind m (fun x => k))
  (at level 61, m at next level, right associativity) : py_scope.
Notation "m ;;; k" := (bind m (fun _ => k))
  (at level 61, right associativity) : py_scope.
Local Open Scope py_scope.

Definition emit (e : event) : M unit := fun tr => (tr ++ [e], Ret tt).

(** [try: body / except KeyboardInterrupt: pass]. *)
Definition except_KeyboardInterrupt (body : M unit) : M unit :=
  fun tr =>
    match body tr with
    | (tr', Raise KeyboardInterrupt) => (tr', Ret tt)
    | other => other
    end.

(** [try: body / finally: cleanup]: the cleanup runs when the body has
    returned or raised, and the body's exception is raised again after
    it. *)
Definition finally (body cleanup : M unit) : M unit :=
  fun tr =>
    match body tr with
    | (tr', Ret tt) => cleanup tr'
    | (tr', Raise e) =>
        match cleanup tr' with
        | (tr'', Ret tt) => (tr'', Raise e)
        | other => other
        end
    | (tr', Running) => (tr', Running)
    end.

(** ** The calls of the script *)

Section Script.

Variable w : world.

(** [serial.Serial(device, baud, timeout=1)]. *)
Definition serial_Serial (device : string) (baud timeout : Z) : M unit :=
  if serial_opens w
  then emit (Open device baud timeout true)
  else emit (Open device baud timeout false) ;;; raise SerialException.

Definition answer (r : reply) : M unit :=
  match r with
  | Done => ret tt
  | Fault => raise SerialException
  | Interrupt => raise KeyboardInterrupt
  end.

(** [ser.write(data)]. *)
Definition ser_write (data : bytes) : M unit :=
  fun tr =>
    let r := write_reply w (calls is_write tr) in
    (emit (Write data r) ;;; answer r) tr.

(** [ser.flush()]. *)
Definition ser_flush : M unit :=
  fun tr =>
    let r := flush_reply w (calls is_flush tr) in
    (emit (Flush r) ;;; answer r) tr.

(** [ser.close()]. *)
Definition ser_close : M unit := emit Close.

(** [time.sleep(secs)]: a length that is negative, NaN or out of range
    is refused before any waiting; the wait itself ends normally or by
    the interrupt signal. *)
Definition time_sleep (secs : pyfloat) : M unit :=
  fun tr =>
    match sleep_error secs with
    | Some e => (emit (Sleep secs Fault) ;;; raise e) tr
    | None =>
        if sleep_signal w (calls is_sleep tr)
        then (emit (Sleep secs Interrupt) ;;; raise KeyboardInterrupt) tr
        else emit (Sleep secs Done) tr
    end.

(** [json.dumps] with the compact separators, line 79. *)
Definition json_dumps (frame : Frame.t) : M string :=
  if Dumps.raises (VDict frame)
  then raise ValueError
  else ret (Dumps.dumps frame).

(** [frames[idx % len(frames)]]. *)
Definition select (frames : list Frame.t) (idx : nat) : M Frame.t :=
  match length frames with
  | O => raise ZeroDivisionError
  | S _ =>
      match nth_error frames (idx mod length frames) with
      | Some frame => ret frame
      | None => raise IndexError
      end
  end.

(** Lines 78 to 82: one transmission; the result is the cursor after
    [idx += 1]. *)
Definition transmit (frames : list Frame.t) (idx : nat) : M nat :=
  frame <- select frames idx ;;
  payload <- json_dumps frame ;;
  ser_write (Utf8.encode payload ++ [LF]) ;;;
  ser_flush ;;;
  ret (idx + 1).

(** [while True:] with its body, lines 77 to 83. *)
Fixpoint loop (fuel : nat) (frames : list Frame.t) (delay : pyfloat)
         (idx : nat)
  : M unit :=
  match fuel with
  | O => running
  | S fuel' =>
      idx' <- transmit frames idx ;;
      time_sleep delay ;;;
      loop fuel' frames delay idx'
  end.

(** The parsed command line. *)
Record args : Type := {
  device : string;
  baud : Z;
  delay : pyfloat
}.

(** The call [build_frames()]: it takes nothing, touches nothing and
    returns the catalog. *)
Definition call_build_frames : M (list Frame.t) := ret build_frames.

(** Lines 73 to 87, for any function that builds the catalog. *)
Definition main_with (build : M (list Frame.t)) (a : args) (fuel : nat)
  : M unit :=
  serial_Serial (device a) (baud a) 1 ;;;
  frames <- build ;;
  let idx := O in
  finally
    (except_KeyboardInterrupt (loop fuel frames (delay a) idx))
    ser_close.

Definition main (a : args) (fuel : nat) : M unit :=
  main_with call_build_frames a fuel.

End Script.

(** The exit status of the interpreter: 0 when [main] returns, 1 when an
    exception leaves it; none while the loop is running. *)
Definition exit_status (r : result unit) : option Z :=
  match r with
  | Ret _ => Some 0%Z
  | Raise _ => Some 1%Z
  | Running => None
  end.

(** One run of the process from an empty trace. *)
Definition run (w : world) (a : args) (fuel : nat) : trace * result unit :=
  main w a fuel [].

(** The same run with another catalog in the place of [build_frames()]. *)
Definition run_with (w : world) (frames : list Frame.t) (a : args) (fuel : nat)
  : trace * result unit :=
  main_with w (ret frames) a fuel [].

(** ** Vocabulary of the statements *)

(** The catalog entry the cursor [k] selects. *)
Definition frame_at (frames : list Frame.t) (k : nat) : Frame.t :=
  nth (k mod length frames) frames [].

(** The message of the [k]-th transmission. *)
Definition message (k : nat) : bytes := wire (frame_at build_frames k).

(** The data handed to [ser.write], call after call. *)
Fixpoint payloads (tr : trace) : list bytes :=
  match tr with
  | [] => []
  | Write data _ :: rest => data :: payloads rest
  | _ :: rest => payloads rest
  end.

(** The data of the writes that succeeded. *)
Fixpoint delivered (tr : trace) : list bytes :=
  match tr with
  | [] => []
  | Write data Done :: rest => data :: delivered rest
  | _ :: rest => delivered rest
  end.

(** The events of one undisturbed turn of the loop. *)
Definition round (frames : list Frame.t) (secs : pyfloat) (k : nat) : trace :=
  [Write (wire (frame_at frames k)) Done; Flush Done; Sleep secs Done].

Fixpoint rounds (frames : list Frame.t) (secs : pyfloat) (first n : nat) : trace :=
  match n with
  | O => []
  | S n' => round frames secs first ++ rounds frames secs (S first) n'
  end.

(** Nothing disturbs turn [k]: the write and the flush succeed and no
    signal arrives during the pause. *)
Definition quiet_at (w : world) (k : nat) : bool :=
  reply_done (write_reply w k) && reply_done (flush_reply w k)
  && negb (sleep_signal w k).

Definition quiet_before (w : world) (n : nat) : bool :=
  forallb (quiet_at w) (seq 0 n).

(** The three call counters agree with the cursor. *)
Definition in_step (tr : trace) (k : nat) : Prop :=
  calls is_write tr = k /\ calls is_flush tr = k /\ calls is_sleep tr = k.

(** What one turn of the loop does at cursor position [k] when the
    counters stand at [k]: its events, and the exception that ends the
    loop if there is one. *)
Definition turn (w : world) (frames : list Frame.t) (secs : pyfloat) (k : nat)
  : trace * option exn :=
  let m := wire (frame_at frames k) in
  if Dumps.raises (VDict (frame_at frames k)) then ([], Some ValueError)
  else
    match write_reply w k with
    | Fault => ([Write m Fault], Some SerialException)
    | Interrupt => ([Write m Interrupt], Some KeyboardInterrupt)
    | Done =>
        match flush_reply w k with
        | Fault => ([Write m Done; Flush Fault], Some SerialException)
        | Interrupt => ([Write m Done; Flush Interrupt], Some KeyboardInterrupt)
        | Done =>
            match sleep_error secs with
            | Some e => ([Write m Done; Flush Done; Sleep secs Fault], Some e)
            | None =>
                if sleep_signal w k
                then ([Write m Done; Flush Done; Sleep secs Interrupt],
                      Some KeyboardInterrupt)
                else (round frames secs k, None)
            end
        end
    end.

(** [time.sleep] accepts the pause. *)
Definition sleep_accepts (secs : pyfloat) : Prop := sleep_error secs = None.

(** The float is below zero. *)
Definition negative (secs : pyfloat) : Prop :=
  match secs with
  | Finite q => (q < 0)%Q
  | Infinity neg => neg = true
  | NaN => False
  end.

(** Every frame of the catalog can be serialised. *)
Definition encodable (frames : list Frame.t) : bool :=
  forallb (fun f => negb (Dumps.raises (VDict f))) frames.

(** The result of a call of the port that was answered by [r]. *)
Definition raised_by (r : reply) : result unit :=
  match r with
  | Done => Ret tt
  | Fault => Raise SerialException
  | Interrupt => Raise KeyboardInterrupt
  end.

(** The trace after [serial.Serial] has opened the port, and after it
    has failed to. *)
Definition opened (a : args) : trace := [Open (device a) (baud a) 1 true].

Definition refused (a : args) : trace := [Open (device a) (baud a) 1 false].

(** How [try/except KeyboardInterrupt/finally] ends a loop that raised. *)
Definition after_cleanup (e : exn) : result unit :=
  match e with
  | KeyboardInterrupt => Ret tt
  | _ => Raise e
  end.

(** The first message of the spec's scenario, written with apostrophes
    where the wire has double quotes. *)
Fixpoint with_double_quotes (s : string) : string :=
  match s with
  | EmptyString => EmptyString
  | String c rest =>
      String (if Ascii.eqb c "'" then dquote else c) (with_double_quotes rest)
  end.

Definition first_message_text : string :=
  with_double_quotes
    "{'line1':'HELLO PI | {0x00}{0x01} | Scroll demo for a long line','line2':'IP 192.168.0.99 | Uptime 12:34:56','scroll_speed_ms':200,'page_timeout_ms':50000}".

Definition first_message : bytes :=
  map byte_of_ascii (list_ascii_of_string first_message_text) ++ [Byte.x0a].

(** The flushes that succeeded. *)
Definition is_flushed (e : event) : bool :=
  match e with Flush Done => true | _ => false end.


(** Where the interrupt signal can meet the loop: while it sends (in the
    write or in the flush) or while it waits. *)
Inductive phase : Type :=
| Sending_write
| Sending_flush
| Waiting.

(** The signal arrives in phase [p] of turn [k], whose earlier calls
    have succeeded. *)
Definition interrupted_in (w : world) (k : nat) (p : phase) : bool :=
  match p with
  | Sending_write =>
      match write_reply w k with Interrupt => true | _ => false end
  | Sending_flush =>
      reply_done (write_reply w k)
      && match flush_reply w k with Interrupt => true | _ => false end
  | Waiting =>
      reply_done (write_reply w k) && reply_done (flush_reply w k)
      && sleep_signal w k
  end.

(** The events of the turn the signal cuts short. *)
Definition cut_round (frames : list Frame.t) (secs : pyfloat) (k : nat) (p : phase)
  : trace :=
  let m := wire (frame_at frames k) in
  match p with
  | Sending_write => [Write m Interrupt]
  | Sending_flush => [Write m Done; Flush Interrupt]
  | Waiting => [Write m Done; Flush Done; Sleep secs Interrupt]
  end.

(** A message with exactly one line feed, its last byte. *)
Definition framed (data : bytes) : Prop :=
  exists body : bytes, data = body ++ [LF] /\ ~ In LF body.

Definition count_LF (data : bytes) : nat :=
  length (filter (Byte.eqb LF) data).

(** Worlds and command lines for the examples. *)
Definition calm : world :=
  {| serial_opens := true;
     write_reply := fun _ => Done;
     flush_reply := fun _ => Done;
     sleep_signal := fun _ => false |}.

Definition demo : args :=
  {| device := "/dev/pts/3"; baud := 115200; delay := Finite 4 |}.

Definition third_write_fails : world :=
  {| serial_opens := true;
     write_reply := fun k => if Nat.eqb k 2 then Fault else Done;
     flush_reply := fun _ => Done;
     sleep_signal := fun _ => false |}.

(** The operator interrupts the pause of the fourth turn. *)
Definition interrupted_while_waiting : world :=
  {| serial_opens := true;
     write_reply := fun _ => Done;
     flush_reply := fun _ => Done;
     sleep_signal := fun k => Nat.eqb k 3 |}.

Definition no_device : world :=
  {| serial_opens := false;
     write_reply := fun _ => Done;
     flush_reply := fun _ => Done;
     sleep_signal := fun _ => false |}.



(** The text has no line feed character. *)
Fixpoint one_line (s : string) : bool :=
  match s with
  | EmptyString => true
  | String c rest => negb (Ascii.eqb c newline) && one_line rest
  end.

(** The texts of a frame: its keys and its text values. *)
Definition texts (f : Frame.t) : list string :=
  flat_map (fun kv => match snd kv with
                      | VStr s => [fst kv; s]
                      | _ => [fst kv]
                      end) f.

(** ** Vocabulary of the further properties *)

(** The call the loop makes next. *)
Inductive awaited : Type :=
| Next_write
| Next_flush
| Next_sleep.

Definition closes (tr : trace) : bool :=
  match tr with
  | [Close] => true
  | _ => false
  end.

(** The order of the calls after the opening: write, flush, pause, and
    again; a call follows only calls that succeeded; after a call that
    did not succeed nothing but the release; the release may come at any
    point and nothing follows it. *)
Fixpoint in_order (next : awaited) (tr : trace) : bool :=
  match tr with
  | [] => true
  | [Close] => true
  | Write _ r :: rest =>
      match next with
      | Next_write => if reply_done r then in_order Next_flush rest else closes rest
      | _ => false
      end
  | Flush r :: rest =>
      match next with
      | Next_flush => if reply_done r then in_order Next_sleep rest else closes rest
      | _ => false
      end
  | Sleep _ r :: rest =>
      match next with
      | Next_sleep => if reply_done r then in_order Next_write rest else closes rest
      | _ => false
      end
  | _ => false
  end.

(** Nesting of lists and dicts. *)
Fixpoint depth (v : value) : nat :=
  match v with
  | VList items => S (list_max (map depth items))
  | VDict fields => S (list_max (map (fun kv => depth (snd kv)) fields))
  | _ => 0
  end.

(** The values [json.dumps] and [json.loads] take without raising: no
    integer of more than 4300 digits, and a nesting of at most 100
    levels, which keeps clear of the recursion limit of the interpreter
    (that limit is not modelled). *)
Definition serialisable (v : value) : bool :=
  negb (Dumps.raises v) && (depth v <=? 100)%nat.

(** Two frames that are not in the built-in catalog. *)
Definition two_frames : list Frame.t :=
  [ [("line1", VStr "A")];
    [("line1", VStr "B"); ("bars", VList [VInt 7; VNull])] ].

(** The pauses of a trace last [secs]. *)
Definition paced (secs : pyfloat) (e : event) : Prop :=
  match e with
  | Sleep s _ => s = secs
  | _ => True
  end.

(** A fault of the port in phase [p] of turn [k], whose earlier calls
    have succeeded; the pause cannot fail that way. *)
Definition failed_in (w : world) (k : nat) (p : phase) : bool :=
  match p with
  | Sending_write =>
      match write_reply w k with Fault => true | _ => false end
  | Sending_flush =>
      reply_done (write_reply w k)
      && match flush_reply w k with Fault => true | _ => false end
  | Waiting => false
  end.

(** The events of the turn the fault cuts short. *)
Definition failed_round (frames : list Frame.t) (k : nat) (p : phase) : trace :=
  let m := wire (frame_at frames k) in
  match p with
  | Sending_write => [Write m Fault]
  | Sending_flush => [Write m Done; Flush Fault]
  | Waiting => []
  end.

(** The frames that were written when the fault came. *)
Definition written_before (k : nat) (p : phase) : nat :=
  match p with
  | Sending_write => k
  | _ => S k
  end.

(** No space character in the text. *)
Fixpoint no_space (s : string) : bool :=
  match s with
  | EmptyString => true
  | String c rest => negb (Ascii.eqb c " ") && no_space rest
  end.

(** No white space of the JSON grammar in the text. *)
Fixpoint spaceless (s : string) : bool :=
  match s with
  | EmptyString => true
  | String c rest => negb (is_ws c) && spaceless rest
  end.

(** No key and no text of the value holds a space. *)
Fixpoint texts_without_space (v : value) : bool :=
  match v with
  | VStr s => no_space s
  | VList items => forallb texts_without_space items
  | VDict fields =>
      forallb (fun kv => no_space (fst kv) && texts_without_space (snd kv))
              fields
  | _ => true
  end.

(** Vocabulary of the lemmas on the JSON text. *)

(** Printable ASCII: space to tilde. *)
Definition printable (c : ascii) : bool :=
  (32 <=? code c)%N && (code c <=? 126)%N.

Fixpoint all_printable (s : string) : bool :=
  match s with
  | EmptyString => true
  | String c rest => printable c && all_printable rest
  end.

(** What may follow a value in a JSON text: nothing, or a comma or a
    closing bracket or brace. *)
Definition boundary (s : string) : bool :=
  match s with
  | EmptyString => true
  | String c _ => Ascii.eqb c "," || Ascii.eqb c "]" || Ascii.eqb c "}"
  end.

(** The first character of a decimal numeral. *)
Definition numeric (c : ascii) : bool := is_digit c || Ascii.eqb c "-".

(** A value starts with a character that is neither white space nor a
    closing bracket. *)
Definition opens_value (c : ascii) : bool :=
  negb (is_ws c) && negb (Ascii.eqb c "]").

(** The decoder reads the text of [v] back, whatever follows it. *)
Definition decodes (v : value) : Prop :=
  forall (fuel : nat) (rest : string),
    size v <= fuel ->
    boundary rest = true ->
    Loads.scan_once fuel (Dumps.encode_value v ++ rest) = Some (v, rest).

(** The text of a field after the opening quote of its key. *)
Definition field_text (k : string) (x : value) (tail : string) : string :=
  Dumps.escape k ++ String dquote (String ":" (Dumps.encode_value x ++ tail)).

(** ** Lemmas on the JSON text *)

Ltac each_ascii c :=
  destruct c as [[|] [|] [|] [|] [|] [|] [|] [|]].

Lemma all_printable_app (s t : string) :
  all_printable (s ++ t)%string = all_printable s && all_printable t.
Proof.
  induction s as [| c s IH]; cbn [String.append all_printable]; [reflexivity |].
  rewrite IH. apply andb_assoc.
Qed.

Lemma printable_escape_char (c : ascii) :
  all_printable (Dumps.escape_char c) = true.
Proof. each_ascii c; reflexivity. Qed.

Lemma printable_escape (s : string) : all_printable (Dumps.escape s) = true.
Proof.
  induction s as [| c s IH]; cbn [Dumps.escape]; [reflexivity |].
  rewrite all_printable_app, printable_escape_char, IH. reflexivity.
Qed.

Lemma printable_basestring (s : string) :
  all_printable (Dumps.encode_basestring_ascii s) = true.
Proof.
  unfold Dumps.encode_basestring_ascii. cbn [all_printable].
  rewrite all_printable_app, printable_escape. reflexivity.
Qed.

Lemma printable_uint (d : Decimal.uint) :
  all_printable (NilEmpty.string_of_uint d) = true.
Proof. induction d; cbn [NilEmpty.string_of_uint all_printable]; auto. Qed.

Lemma printable_int_repr (z : Z) : all_printable (Dumps.int_repr z) = true.
Proof.
  unfold Dumps.int_repr, NilZero.string_of_int, NilZero.string_of_uint.
  destruct (Z.to_int z) as [d | d]; destruct d; cbn [all_printable];
    try reflexivity; apply printable_uint.
Qed.

Lemma encode_list (items : list value) :
  Dumps.encode_value (VList items)
  = ("[" ++ Dumps.join_items items ++ "]")%string.
Proof. reflexivity. Qed.

Lemma encode_dict (fields : list (string * value)) :
  Dumps.encode_value (VDict fields)
  = ("{" ++ Dumps.join_fields fields ++ "}")%string.
Proof. reflexivity. Qed.

Lemma printable_join_items (items : list value) :
  Forall (fun x => all_printable (Dumps.encode_value x) = true) items ->
  all_printable (Dumps.join_items items) = true.
Proof.
  induction 1 as [| x rest Hx Hrest IH]; [reflexivity |].
  cbn [Dumps.join_items]. destruct rest as [| y rest']; [exact Hx |].
  rewrite !all_printable_app, Hx, IH. reflexivity.
Qed.

Lemma printable_join_fields (fields : list (string * value)) :
  Forall (fun kv => all_printable (Dumps.encode_value (snd kv)) = true) fields ->
  all_printable (Dumps.join_fields fields) = true.
Proof.
  induction 1 as [| [k x] rest Hx Hrest IH]; [reflexivity |].
  cbn [Dumps.join_fields]. cbn [snd] in Hx.
  destruct rest as [| y rest'].
  - rewrite !all_printable_app, printable_basestring, Hx. reflexivity.
  - rewrite !all_printable_app, printable_basestring, Hx, IH. reflexivity.
Qed.

(** With [ensure_ascii] the JSON text of any value is made of printable
    ASCII characters only: everything else inside a text is written as
    an escape. *)
Lemma printable_encode_value (v : value) :
  all_printable (Dumps.encode_value v) = true.
Proof.
  induction v as [| b | z | s | items IH | fields IH] using value_induction.
  - reflexivity.
  - destruct b; reflexivity.
  - apply printable_int_repr.
  - apply printable_basestring.
  - rewrite encode_list, !all_printable_app, (printable_join_items items IH).
    reflexivity.
  - rewrite encode_dict, !all_printable_app, (printable_join_fields fields IH).
    reflexivity.
Qed.

Lemma printable_dumps (f : Frame.t) : all_printable (Dumps.dumps f) = true.
Proof. apply printable_encode_value. Qed.

Lemma utf8_printable_char (c : ascii) :
  printable c = true ->
  Utf8.encode_char c = [byte_of_ascii c] /\ byte_of_ascii c <> LF.
Proof.
  each_ascii c; intros H; try discriminate H; split;
    solve [reflexivity | discriminate].
Qed.

(** On printable ASCII the UTF-8 encoding is the text itself, byte for
    character, and holds no line feed. *)
Lemma utf8_printable (s : string) :
  all_printable s = true ->
  Utf8.encode s = map byte_of_ascii (list_ascii_of_string s) /\
  ~ In LF (Utf8.encode s).
Proof.
  induction s as [| c s IH];
    cbn [all_printable Utf8.encode list_ascii_of_string map].
  - intros _. split; [reflexivity | intros []].
  - intros H. apply andb_prop in H. destruct H as [Hc Hs].
    destruct (utf8_printable_char c Hc) as [Henc Hne].
    destruct (IH Hs) as [Hrest Hnot]. rewrite Henc. cbn [app].
    split; [rewrite Hrest; reflexivity |].
    intros [Hin | Hin]; [exact (Hne Hin) | exact (Hnot Hin)].
Qed.

(** Every frame, whatever its texts, goes on the wire as one line and
    its line feed. *)
Lemma wire_framed (f : Frame.t) : framed (wire f).
Proof.
  exists (Utf8.encode (Dumps.dumps f)). split; [reflexivity |].
  apply utf8_printable. apply printable_dumps.
Qed.

Lemma wire_bytes (f : Frame.t) :
  wire f = map byte_of_ascii (list_ascii_of_string (Dumps.dumps f)) ++ [LF].
Proof.
  unfold wire. destruct (utf8_printable _ (printable_dumps f)) as [-> _].
  reflexivity.
Qed.

(** *** Decoding what the encoder wrote *)

Lemma append_assoc (s t u : string) :
  ((s ++ t) ++ u = s ++ (t ++ u))%string.
Proof.
  induction s as [| c s IH]; cbn [String.append]; [reflexivity |].
  rewrite IH. reflexivity.
Qed.

Lemma length_append (s t : string) :
  String.length (s ++ t) = String.length s + String.length t.
Proof.
  induction s as [| c s IH]; cbn [String.append String.length]; [reflexivity |].
  rewrite IH. reflexivity.
Qed.

Lemma scanstring_escape_char (c : ascii) (t : string) :
  Loads.scanstring (Dumps.escape_char c ++ t)
  = Loads.cons_char c (Loads.scanstring t).
Proof. each_ascii c; reflexivity. Qed.

Lemma scanstring_escape (s rest : string) :
  Loads.scanstring (Dumps.escape s ++ String dquote rest) = Some (s, rest).
Proof.
  induction s as [| c s IH]; cbn [Dumps.escape String.append].
  - reflexivity.
  - rewrite append_assoc, scanstring_escape_char, IH. reflexivity.
Qed.

Lemma boundary_not_number (s : string) :
  boundary s = true ->
  Loads.starts_with_digit s = false /\ Loads.float_tail s = false.
Proof.
  destruct s as [| c s]; [split; reflexivity |].
  cbn [boundary]. each_ascii c; try discriminate; intros _; split; reflexivity.
Qed.

Lemma digits_uint (d : Decimal.uint) (rest : string) :
  Loads.starts_with_digit rest = false ->
  Loads.digits (NilEmpty.string_of_uint d ++ rest)
  = (NilEmpty.string_of_uint d, rest).
Proof.
  intros Hrest.
  induction d; cbn [NilEmpty.string_of_uint String.append Loads.digits];
    try (change (is_digit _) with true; cbv iota; rewrite IHd; reflexivity).
  destruct rest as [| c rest]; [reflexivity |].
  cbn [Loads.digits]. cbn [Loads.starts_with_digit] in Hrest.
  rewrite Hrest. reflexivity.
Qed.

Lemma int_of_digits_acc (d : Decimal.uint) :
  forall p : positive,
    Loads.int_of_digits (Z.pos p) (NilEmpty.string_of_uint d)
    = Z.pos (Pos.of_uint_acc d p).
Proof.
  induction d; intros p;
    cbn [NilEmpty.string_of_uint Loads.int_of_digits Pos.of_uint_acc];
    [reflexivity | ..];
    match goal with
    | |- Loads.int_of_digits ?z _ = Z.pos (Pos.of_uint_acc _ ?q) =>
        replace z with (Z.pos q)
          by (match goal with
              | |- context [Z.of_N ?n] =>
                  let v := eval vm_compute in (Z.of_N n) in
                  change (Z.of_N n) with v
              end; lia)
    end; apply IHd.
Qed.

Lemma int_of_digits_uint (d : Decimal.uint) :
  Loads.int_of_digits 0 (NilEmpty.string_of_uint d) = Z.of_N (Pos.of_uint d).
Proof.
  induction d;
    cbn [NilEmpty.string_of_uint Loads.int_of_digits Pos.of_uint];
    [reflexivity | exact IHd | ..];
    match goal with
    | |- Loads.int_of_digits ?z _ = Z.of_N (N.pos (Pos.of_uint_acc _ ?q)) =>
        change z with (Z.pos q)
    end; apply int_of_digits_acc.
Qed.

Lemma unorm_D0_nil (l l' : Decimal.uint) :
  Decimal.unorm l = Decimal.D0 l' -> l' = Decimal.Nil.
Proof.
  induction l; cbn [Decimal.unorm Decimal.nzhead]; intros H;
    try discriminate; try (injection H; auto; fail).
  apply IHl. exact H.
Qed.

Lemma to_uint_head (p : positive) (l : Decimal.uint) :
  Pos.to_uint p <> Decimal.D0 l.
Proof.
  intros H.
  pose proof (DecimalPos.Unsigned.to_of (Pos.to_uint p)) as Hnorm.
  rewrite DecimalPos.Unsigned.of_to in Hnorm. cbn [N.to_uint] in Hnorm.
  rewrite H in Hnorm. symmetry in Hnorm.
  apply unorm_D0_nil in Hnorm. subst l.
  exact (DecimalPos.Unsigned.to_uint_nonzero p H).
Qed.

Lemma scan_unsigned_pos (p : positive) (rest : string) :
  boundary rest = true ->
  Nat.ltb Dumps.max_str_digits
          (String.length (NilEmpty.string_of_uint (Pos.to_uint p))) = false ->
  Loads.scan_unsigned (NilEmpty.string_of_uint (Pos.to_uint p) ++ rest)
  = Some (Z.pos p, rest).
Proof.
  intros Hb Hlen. destruct (boundary_not_number rest Hb) as [Hdigit Hfloat].
  pose proof (DecimalPos.Unsigned.of_to p) as Hof.
  pose proof (DecimalPos.Unsigned.to_uint_nonnil p) as Hnil.
  pose proof (to_uint_head p) as Hhead.
  destruct (Pos.to_uint p) as [| d | d | d | d | d | d | d | d | d | d] eqn:E;
    [congruence | exfalso; exact (Hhead d eq_refl) | ..];
    change (Z.pos p) with (Z.of_N (N.pos p)); rewrite <- Hof;
    match goal with
    | |- context [NilEmpty.string_of_uint ?u] =>
        rewrite <- (int_of_digits_uint u)
    end;
    cbn [NilEmpty.string_of_uint String.append Loads.scan_unsigned];
    match goal with
    | |- context [is_digit ?c] => change (is_digit c) with true
    end;
    match goal with
    | |- context [Ascii.eqb ?c "0"] => change (Ascii.eqb c "0") with false
    end;
    cbv iota; rewrite (digits_uint d rest Hdigit), Hfloat;
    cbn [NilEmpty.string_of_uint] in Hlen; rewrite Hlen; reflexivity.
Qed.


Lemma string_of_uint_pos (p : positive) :
  NilZero.string_of_uint (Pos.to_uint p)
  = NilEmpty.string_of_uint (Pos.to_uint p).
Proof.
  pose proof (DecimalPos.Unsigned.to_uint_nonnil p) as Hnil.
  unfold NilZero.string_of_uint.
  destruct (Pos.to_uint p); [congruence | reflexivity ..].
Qed.

Lemma too_long_pos (p : positive) :
  Dumps.too_long (Z.pos p)
  = Nat.ltb Dumps.max_str_digits
            (String.length (NilEmpty.string_of_uint (Pos.to_uint p))).
Proof.
  unfold Dumps.too_long, Dumps.int_repr.
  cbn [Z.abs Z.to_int NilZero.string_of_int].
  rewrite string_of_uint_pos. reflexivity.
Qed.

Lemma uint_head (d : Decimal.uint) :
  d <> Decimal.Nil ->
  exists (c : ascii) (s : string),
    NilEmpty.string_of_uint d = String c s /\ is_digit c = true.
Proof.
  intros Hnil. destruct d; [congruence | ..];
    cbn [NilEmpty.string_of_uint]; eexists; eexists; split; reflexivity.
Qed.

Lemma int_repr_head (z : Z) :
  exists (c : ascii) (s : string),
    Dumps.int_repr z = String c s /\ numeric c = true.
Proof.
  unfold Dumps.int_repr. destruct z as [| p | p];
    cbn [Z.to_int NilZero.string_of_int].
  - exists "0"%char, EmptyString. split; reflexivity.
  - rewrite string_of_uint_pos.
    destruct (uint_head (Pos.to_uint p)
                (DecimalPos.Unsigned.to_uint_nonnil p)) as (c & s & -> & Hc).
    exists c, s. split; [reflexivity |]. unfold numeric. rewrite Hc. reflexivity.
  - exists "-"%char. eexists. split; reflexivity.
Qed.

Lemma scan_number_int_repr (z : Z) (rest : string) :
  boundary rest = true ->
  Dumps.too_long z = false ->
  Loads.scan_number (Dumps.int_repr z ++ rest) = Some (z, rest).
Proof.
  intros Hb Hlen. unfold Dumps.int_repr. destruct z as [| p | p];
    cbn [Z.to_int NilZero.string_of_int].
  - destruct (boundary_not_number rest Hb) as [_ Hfloat].
    cbn. rewrite Hfloat. reflexivity.
  - rewrite too_long_pos in Hlen. rewrite string_of_uint_pos.
    pose proof (scan_unsigned_pos p rest Hb Hlen) as Hscan.
    destruct (uint_head (Pos.to_uint p)
                (DecimalPos.Unsigned.to_uint_nonnil p)) as (c & s & Hs & Hc).
    rewrite Hs in *. cbn [String.append] in *. cbn [Loads.scan_number].
    assert (Hminus : Ascii.eqb c "-" = false).
    { revert Hc. clear. each_ascii c; intros H; try discriminate H; reflexivity. }
    rewrite Hminus. exact Hscan.
  - change (Dumps.too_long (Z.neg p)) with (Dumps.too_long (Z.pos p)) in Hlen.
    rewrite too_long_pos in Hlen.
    rewrite string_of_uint_pos. cbn [String.append Loads.scan_number].
    change (Ascii.eqb "-" "-") with true. cbv iota.
    rewrite (scan_unsigned_pos p rest Hb Hlen). reflexivity.
Qed.

Lemma scan_once_numeric (fuel : nat) (c : ascii) (s : string) :
  numeric c = true ->
  Loads.scan_once (S fuel) (String c s)
  = match Loads.scan_number (String c s) with
    | Some (z, tl) => Some (VInt z, tl)
    | None => None
    end.
Proof.
  each_ascii c; intros H; try discriminate H; reflexivity.
Qed.

Lemma scan_once_int (fuel : nat) (z : Z) (rest : string) :
  boundary rest = true ->
  Dumps.too_long z = false ->
  Loads.scan_once (S fuel) (Dumps.int_repr z ++ rest) = Some (VInt z, rest).
Proof.
  intros Hb Hlen. pose proof (scan_number_int_repr z rest Hb Hlen) as Hscan.
  destruct (int_repr_head z) as (c & s & Hs & Hc).
  rewrite Hs in *. cbn [String.append] in *.
  rewrite (scan_once_numeric fuel c _ Hc), Hscan. reflexivity.
Qed.

Lemma scan_once_str (fuel : nat) (s rest : string) :
  Loads.scan_once (S fuel) (Dumps.encode_basestring_ascii s ++ rest)
  = Some (VStr s, rest).
Proof.
  unfold Dumps.encode_basestring_ascii. cbn [String.append Loads.scan_once].
  change (Ascii.eqb dquote dquote) with true. cbv iota.
  rewrite append_assoc. cbn [String.append].
  rewrite scanstring_escape. reflexivity.
Qed.

Lemma numeric_opens_value (c : ascii) : numeric c = true -> opens_value c = true.
Proof. each_ascii c; intros H; try discriminate H; reflexivity. Qed.

Lemma encode_value_head (v : value) :
  exists (c : ascii) (s : string),
    Dumps.encode_value v = String c s /\ opens_value c = true.
Proof.
  destruct v as [| [|] | z | s | items | fields];
    try (eexists; eexists; split; reflexivity).
  destruct (int_repr_head z) as (c & s & Hs & Hc).
  exists c, s. split; [exact Hs | apply numeric_opens_value; exact Hc].
Qed.

Lemma skip_ws_value (v : value) (rest : string) :
  Loads.skip_ws (Dumps.encode_value v ++ rest) = (Dumps.encode_value v ++ rest)%string.
Proof.
  destruct (encode_value_head v) as (c & s & -> & Hc).
  cbn [String.append Loads.skip_ws].
  unfold opens_value in Hc. apply andb_prop in Hc. destruct Hc as [Hws _].
  apply negb_true_iff in Hws. rewrite Hws. reflexivity.
Qed.

Lemma append_nil_r (s : string) : (s ++ EmptyString)%string = s.
Proof.
  induction s as [| c s IH]; cbn [String.append]; [reflexivity |].
  rewrite IH. reflexivity.
Qed.

(** *** Dicts without repeated keys *)

Lemma set_fresh (k : string) (v : value) (f : Frame.t) :
  existsb (String.eqb k) (keys f) = false ->
  Frame.set k v f = f ++ [(k, v)].
Proof.
  induction f as [| [k' v'] f IH]; cbn [keys map fst existsb Frame.set app];
    [reflexivity |].
  intros H. apply orb_false_iff in H. destruct H as [Hk Hrest].
  rewrite Hk, (IH Hrest). reflexivity.
Qed.

Lemma existsb_keys_app (k : string) (f g : Frame.t) :
  existsb (String.eqb k) (keys (f ++ g))
  = existsb (String.eqb k) (keys f) || existsb (String.eqb k) (keys g).
Proof. unfold keys. rewrite map_app. apply existsb_app. Qed.

Lemma fold_set_distinct (pairs : list (string * value)) :
  forall acc : Frame.t,
    distinct (keys pairs) = true ->
    (forall k, In k (keys pairs) -> existsb (String.eqb k) (keys acc) = false) ->
    fold_left (fun d kv => Frame.set (fst kv) (snd kv) d) pairs acc
    = acc ++ pairs.
Proof.
  induction pairs as [| [k v] pairs IH]; intros acc Hd Hfresh;
    cbn [fold_left fst snd].
  - rewrite app_nil_r. reflexivity.
  - cbn [keys map fst distinct] in Hd. apply andb_prop in Hd.
    destruct Hd as [Hk Hd]. apply negb_true_iff in Hk.
    rewrite (set_fresh k v acc (Hfresh k (or_introl eq_refl))).
    rewrite (IH (acc ++ [(k, v)]) Hd).
    + rewrite <- app_assoc. reflexivity.
    + intros k' Hin. rewrite existsb_keys_app.
      rewrite (Hfresh k' (or_intror Hin)). cbn [keys map fst existsb orb].
      rewrite orb_false_r.
      destruct (String.eqb k' k) eqn:E; [| reflexivity].
      apply String.eqb_eq in E. subst k'.
      assert (Hex : existsb (String.eqb k) (map fst pairs) = true).
      { apply existsb_exists. exists k. split; [exact Hin | apply String.eqb_refl]. }
      congruence.
Qed.

Lemma of_pairs_distinct (fields : list (string * value)) :
  distinct (keys fields) = true -> Frame.of_pairs fields = fields.
Proof.
  intros Hd. unfold Frame.of_pairs.
  rewrite (fold_set_distinct fields [] Hd); [reflexivity |].
  intros k _. reflexivity.
Qed.

(** *** Lists and dicts *)

Lemma elements_step_last (fuel : nat) (s : string) (acc : list value)
      (x : value) (rest : string) :
  Loads.scan_once fuel s = Some (x, String "]" rest) ->
  Loads.elements (S fuel) s acc = Some (acc ++ [x], rest).
Proof. intros H. cbn [Loads.elements]. rewrite H. reflexivity. Qed.

Lemma elements_step_more (fuel : nat) (s : string) (acc : list value)
      (x : value) (t : string) :
  Loads.scan_once fuel s = Some (x, String "," t) ->
  Loads.elements (S fuel) s acc
  = Loads.elements fuel (Loads.skip_ws t) (acc ++ [x]).
Proof. intros H. cbn [Loads.elements]. rewrite H. reflexivity. Qed.

Lemma members_step_last (fuel : nat) (s s2 : string)
      (pairs : list (string * value)) (k : string) (x : value) (rest : string) :
  Loads.scanstring s = Some (k, String ":" s2) ->
  Loads.scan_once fuel (Loads.skip_ws s2) = Some (x, String "}" rest) ->
  Loads.members (S fuel) s pairs = Some (pairs ++ [(k, x)], rest).
Proof.
  intros Hk Hx. cbn [Loads.members]. rewrite Hk.
  change (Loads.skip_ws (String ":" s2)) with (String ":" s2).
  change (Ascii.eqb ":" ":") with true. cbv iota.
  rewrite Hx. reflexivity.
Qed.

Lemma members_step_more (fuel : nat) (s s2 s5 : string)
      (pairs : list (string * value)) (k : string) (x : value) :
  Loads.scanstring s = Some (k, String ":" s2) ->
  Loads.scan_once fuel (Loads.skip_ws s2)
  = Some (x, String "," (String dquote s5)) ->
  Loads.members (S fuel) s pairs = Loads.members fuel s5 (pairs ++ [(k, x)]).
Proof.
  intros Hk Hx. cbn [Loads.members]. rewrite Hk.
  change (Loads.skip_ws (String ":" s2)) with (String ":" s2).
  change (Ascii.eqb ":" ":") with true. cbv iota.
  rewrite Hx. reflexivity.
Qed.

Lemma join_items_more (x y : value) (r : list value) (t : string) :
  (Dumps.join_items (x :: y :: r) ++ t)%string
  = (Dumps.encode_value x ++ String "," (Dumps.join_items (y :: r) ++ t))%string.
Proof.
  change (Dumps.join_items (x :: y :: r))
    with (Dumps.encode_value x ++ "," ++ Dumps.join_items (y :: r))%string.
  rewrite append_assoc. reflexivity.
Qed.

Lemma join_items_head (x : value) (r : list value) (t : string) :
  exists (d : ascii) (s : string),
    (Dumps.join_items (x :: r) ++ t)%string = String d s /\ opens_value d = true.
Proof.
  destruct (encode_value_head x) as (d & s & Hs & Hd).
  destruct r as [| y r].
  - cbn [Dumps.join_items]. rewrite Hs. cbn [String.append].
    eexists; eexists; split; [reflexivity | exact Hd].
  - rewrite join_items_more, Hs. cbn [String.append].
    eexists; eexists; split; [reflexivity | exact Hd].
Qed.

Lemma elements_join (r : list value) :
  forall x : value,
    decodes x ->
    Forall decodes r ->
    forall (fuel : nat) (acc : list value) (rest : string),
      list_sum (map (fun y => S (size y)) (x :: r)) <= fuel ->
      Loads.elements fuel (Dumps.join_items (x :: r) ++ String "]" rest) acc
      = Some (acc ++ x :: r, rest).
Proof.
  induction r as [| y r IH]; intros x Hx Hr fuel acc rest Hfuel;
    cbn [map list_sum fold_right] in Hfuel.
  - destruct fuel as [| fuel]; [lia |]. cbn [Dumps.join_items].
    apply elements_step_last. apply Hx; [lia | reflexivity].
  - destruct fuel as [| fuel]; [lia |]. rewrite join_items_more.
    rewrite (elements_step_more fuel _ acc x
               (Dumps.join_items (y :: r) ++ String "]" rest)).
    + destruct (join_items_head y r (String "]" rest)) as (d & s & Hs & Hd).
      assert (Hskip : Loads.skip_ws
                        (Dumps.join_items (y :: r) ++ String "]" rest)
                      = (Dumps.join_items (y :: r) ++ String "]" rest)%string).
      { rewrite Hs. cbn [Loads.skip_ws]. unfold opens_value in Hd.
        apply andb_prop in Hd. destruct Hd as [Hws _].
        apply negb_true_iff in Hws. rewrite Hws. reflexivity. }
      rewrite Hskip. inversion Hr as [| y' r' Hy Hr']; subst.
      rewrite (IH y Hy Hr' fuel (acc ++ [x]) rest).
      * rewrite <- List.app_assoc. reflexivity.
      * cbn [map list_sum fold_right]. lia.
    + apply Hx; [lia | reflexivity].
Qed.

Lemma join_fields_last (k : string) (x : value) (t : string) :
  (Dumps.join_fields [(k, x)] ++ t)%string = String dquote (field_text k x t).
Proof.
  cbn [Dumps.join_fields]. unfold Dumps.encode_basestring_ascii, field_text.
  cbn [String.append]. rewrite !append_assoc. cbn [String.append].
  rewrite ?append_assoc. reflexivity.
Qed.

Lemma join_fields_more (k : string) (x : value) (kv : string * value)
      (r : list (string * value)) (t : string) :
  (Dumps.join_fields ((k, x) :: kv :: r) ++ t)%string
  = String dquote
      (field_text k x (String "," (Dumps.join_fields (kv :: r) ++ t))).
Proof.
  change (Dumps.join_fields ((k, x) :: kv :: r))
    with (Dumps.encode_basestring_ascii k ++ ":" ++ Dumps.encode_value x
          ++ "," ++ Dumps.join_fields (kv :: r))%string.
  unfold Dumps.encode_basestring_ascii, field_text.
  cbn [String.append]. rewrite !append_assoc. cbn [String.append].
  rewrite ?append_assoc. reflexivity.
Qed.

Lemma join_fields_quote (kv : string * value) (r : list (string * value))
      (t : string) :
  exists s : string, (Dumps.join_fields (kv :: r) ++ t)%string = String dquote s.
Proof.
  destruct kv as [k x]. destruct r as [| kv' r].
  - rewrite join_fields_last. eexists; reflexivity.
  - rewrite join_fields_more. eexists; reflexivity.
Qed.

Lemma members_join (r : list (string * value)) :
  forall (k : string) (x : value),
    decodes x ->
    Forall (fun kv => decodes (snd kv)) r ->
    forall (fuel : nat) (pairs : list (string * value)) (rest s : string),
      list_sum (map (fun kv => S (size (snd kv))) ((k, x) :: r)) <= fuel ->
      String dquote s
      = (Dumps.join_fields ((k, x) :: r) ++ String "}" rest)%string ->
      Loads.members fuel s pairs = Some (pairs ++ (k, x) :: r, rest).
Proof.
  induction r as [| [k' y] r IH]; intros k x Hx Hr fuel pairs rest s Hfuel Hs;
    cbn [map list_sum fold_right snd] in Hfuel.
  - destruct fuel as [| fuel]; [lia |].
    rewrite join_fields_last in Hs. injection Hs as ->.
    apply (members_step_last fuel _ (Dumps.encode_value x ++ String "}" rest)).
    + unfold field_text. apply scanstring_escape.
    + rewrite skip_ws_value. apply Hx; [lia | reflexivity].
  - destruct fuel as [| fuel]; [lia |].
    rewrite join_fields_more in Hs. injection Hs as ->.
    destruct (join_fields_quote (k', y) r (String "}" rest)) as (s5 & Hs5).
    rewrite (members_step_more fuel _
               (Dumps.encode_value x
                ++ String "," (Dumps.join_fields ((k', y) :: r)
                               ++ String "}" rest))
               s5 pairs k x).
    + inversion Hr as [| kv' r' Hy Hr']; subst. cbn [snd] in Hy.
      rewrite (IH k' y Hy Hr' fuel (pairs ++ [(k, x)]) rest s5).
      * rewrite <- List.app_assoc. reflexivity.
      * cbn [map list_sum fold_right snd]. lia.
      * symmetry. exact Hs5.
    + unfold field_text. apply scanstring_escape.
    + rewrite skip_ws_value, Hs5. apply Hx; [lia | reflexivity].
Qed.

Lemma scan_once_list (fuel : nat) (d : ascii) (s : string) :
  opens_value d = true ->
  Loads.scan_once (S fuel) (String "[" (String d s))
  = match Loads.elements fuel (String d s) [] with
    | Some (items, tl) => Some (VList items, tl)
    | None => None
    end.
Proof.
  unfold opens_value. intros H. apply andb_prop in H. destruct H as [Hws Hb].
  apply negb_true_iff in Hws. apply negb_true_iff in Hb.
  cbn [Loads.scan_once].
  change (Ascii.eqb "[" dquote) with false.
  change (Ascii.eqb "[" "{") with false.
  change (Ascii.eqb "[" "[") with true. cbv iota.
  cbn [Loads.skip_ws]. rewrite Hws, Hb. reflexivity.
Qed.

Lemma scan_once_dict (fuel : nat) (s : string) :
  Loads.scan_once (S fuel) (String "{" (String dquote s))
  = match Loads.members fuel s [] with
    | Some (pairs, tl) => Some (VDict (Frame.of_pairs pairs), tl)
    | None => None
    end.
Proof. reflexivity. Qed.

Lemma Forall_decodes (items : list value) :
  Forall (fun x => well_formed x = true -> Dumps.raises x = false -> decodes x)
         items ->
  forallb well_formed items = true ->
  existsb Dumps.raises items = false ->
  Forall decodes items.
Proof.
  induction 1 as [| x r Hx Hr IH]; cbn [forallb existsb]; intros H E;
    constructor; apply andb_prop in H; apply orb_false_iff in E.
  - apply Hx; tauto.
  - apply IH; tauto.
Qed.

Lemma Forall_decodes_fields (fields : list (string * value)) :
  Forall (fun kv => well_formed (snd kv) = true ->
                    Dumps.raises (snd kv) = false -> decodes (snd kv)) fields ->
  forallb (fun kv => well_formed (snd kv)) fields = true ->
  existsb (fun kv => Dumps.raises (snd kv)) fields = false ->
  Forall (fun kv => decodes (snd kv)) fields.
Proof.
  induction 1 as [| x r Hx Hr IH]; cbn [forallb existsb]; intros H E;
    constructor; apply andb_prop in H; apply orb_false_iff in E.
  - apply Hx; tauto.
  - apply IH; tauto.
Qed.

(** The decoder inverts the encoder on every value that stands for a
    Python object. *)
Lemma decode_encode (v : value) :
  well_formed v = true -> Dumps.raises v = false -> decodes v.
Proof.
  induction v as [| b | z | s | items IH | fields IH] using value_induction;
    intros Hwf Hok fuel rest Hfuel Hb.
  - destruct fuel as [| fuel]; [cbn in Hfuel; lia | reflexivity].
  - destruct fuel as [| fuel]; [cbn in Hfuel; lia |]. destruct b; reflexivity.
  - destruct fuel as [| fuel]; [cbn in Hfuel; lia |].
    apply scan_once_int; [exact Hb | exact Hok].
  - destruct fuel as [| fuel]; [cbn in Hfuel; lia |]. apply scan_once_str.
  - change (forallb well_formed items = true) in Hwf.
    change (S (list_sum (map (fun x => S (size x)) items)) <= fuel) in Hfuel.
    destruct fuel as [| fuel]; [lia |]. apply le_S_n in Hfuel.
    change (existsb Dumps.raises items = false) in Hok.
    pose proof (Forall_decodes items IH Hwf Hok) as Hall.
    rewrite encode_list. cbn [String.append]. rewrite append_assoc.
    cbn [String.append].
    destruct items as [| x r]; [reflexivity |].
    destruct (join_items_head x r (String "]" rest)) as (d & s & Hs & Hd).
    pose proof (elements_join r x (Forall_inv Hall) (Forall_inv_tail Hall)
                  fuel [] rest Hfuel) as Hel.
    rewrite Hs in *. rewrite (scan_once_list fuel d s Hd), Hel. reflexivity.
  - change (distinct (map fst fields)
            && forallb (fun kv => well_formed (snd kv)) fields = true) in Hwf.
    apply andb_prop in Hwf. destruct Hwf as [Hkeys Hwf].
    change (S (list_sum (map (fun kv => S (size (snd kv))) fields)) <= fuel)
      in Hfuel.
    destruct fuel as [| fuel]; [lia |]. apply le_S_n in Hfuel.
    change (existsb (fun kv => Dumps.raises (snd kv)) fields = false) in Hok.
    pose proof (Forall_decodes_fields fields IH Hwf Hok) as Hall.
    rewrite encode_dict. cbn [String.append]. rewrite append_assoc.
    cbn [String.append].
    destruct fields as [| [k x] r]; [reflexivity |].
    destruct (join_fields_quote (k, x) r (String "}" rest)) as (s & Hs).
    pose proof (members_join r k x (Forall_inv Hall) (Forall_inv_tail Hall)
                  fuel [] rest s Hfuel (eq_sym Hs)) as Hmem.
    rewrite Hs, scan_once_dict, Hmem. cbn [app].
    rewrite (of_pairs_distinct _ Hkeys). reflexivity.
Qed.

(** *** The fuel of [loads] is enough *)

Lemma size_join_items (items : list value) :
  Forall (fun x => size x <= String.length (Dumps.encode_value x)) items ->
  list_sum (map (fun x => S (size x)) items)
  <= S (String.length (Dumps.join_items items)).
Proof.
  induction 1 as [| x r Hx Hr IH]; cbn [map list_sum fold_right]; [lia |].
  destruct r as [| y r].
  - cbn [Dumps.join_items map list_sum fold_right]. lia.
  - change (Dumps.join_items (x :: y :: r))
      with (Dumps.encode_value x ++ "," ++ Dumps.join_items (y :: r))%string.
    rewrite !length_append. cbn [String.length].
    cbn [map list_sum fold_right] in IH. cbn [map list_sum fold_right]. lia.
Qed.

Lemma size_join_fields (fields : list (string * value)) :
  Forall (fun kv => size (snd kv) <= String.length (Dumps.encode_value (snd kv)))
         fields ->
  list_sum (map (fun kv => S (size (snd kv))) fields)
  <= S (String.length (Dumps.join_fields fields)).
Proof.
  induction 1 as [| [k x] r Hx Hr IH]; cbn [map list_sum fold_right]; [lia |].
  cbn [snd] in Hx. destruct r as [| kv r].
  - cbn [Dumps.join_fields map list_sum fold_right snd].
    rewrite !length_append. lia.
  - change (Dumps.join_fields ((k, x) :: kv :: r))
      with (Dumps.encode_basestring_ascii k ++ ":" ++ Dumps.encode_value x
            ++ "," ++ Dumps.join_fields (kv :: r))%string.
    rewrite !length_append. cbn [String.length].
    cbn [map list_sum fold_right] in IH. cbn [map list_sum fold_right snd]. lia.
Qed.

Lemma size_le_length (v : value) :
  size v <= String.length (Dumps.encode_value v).
Proof.
  induction v as [| b | z | s | items IH | fields IH] using value_induction.
  - cbn. lia.
  - destruct b; cbn; lia.
  - destruct (int_repr_head z) as (c & s & Hs & _). cbn [size Dumps.encode_value].
    rewrite Hs. cbn [String.length]. lia.
  - cbn [size Dumps.encode_value]. unfold Dumps.encode_basestring_ascii.
    cbn [String.length]. lia.
  - rewrite encode_list.
    change (size (VList items))
      with (S (list_sum (map (fun x => S (size x)) items))).
    cbn [String.append String.length]. rewrite length_append.
    cbn [String.length]. pose proof (size_join_items items IH). lia.
  - rewrite encode_dict.
    change (size (VDict fields))
      with (S (list_sum (map (fun kv => S (size (snd kv))) fields))).
    cbn [String.append String.length]. rewrite length_append.
    cbn [String.length]. pose proof (size_join_fields fields IH). lia.
Qed.

(** [json.loads(json.dumps(v))] is [v], for every value in which no dict
    repeats a key. *)
Lemma loads_encode_value (v : value) :
  well_formed v = true ->
  Dumps.raises v = false ->
  Loads.loads (Dumps.encode_value v) = Some v.
Proof.
  intros Hwf Hok. unfold Loads.loads.
  pose proof (skip_ws_value v EmptyString) as Hskip.
  rewrite append_nil_r in Hskip. rewrite Hskip.
  pose proof (decode_encode v Hwf Hok
                (S (String.length (Dumps.encode_value v))) EmptyString) as Hdec.
  rewrite append_nil_r in Hdec.
  rewrite Hdec; [reflexivity | | reflexivity].
  pose proof (size_le_length v). lia.
Qed.

Lemma loads_dumps (f : Frame.t) :
  well_formed (VDict f) = true ->
  Dumps.raises (VDict f) = false ->
  Loads.loads (Dumps.dumps f) = Some (VDict f).
Proof. apply loads_encode_value. Qed.


(** ** Lemmas on traces and on the loop *)

Lemma calls_app (kind : event -> bool) (tr ext : trace) :
  calls kind (tr ++ ext) = calls kind tr + calls kind ext.
Proof.
  unfold calls. rewrite filter_app, length_app. reflexivity.
Qed.

Lemma payloads_app (tr ext : trace) :
  payloads (tr ++ ext) = payloads tr ++ payloads ext.
Proof.
  induction tr as [| e tr IH]; simpl; [reflexivity |].
  destruct e; simpl; rewrite IH; reflexivity.
Qed.

Lemma delivered_app (tr ext : trace) :
  delivered (tr ++ ext) = delivered tr ++ delivered ext.
Proof.
  induction tr as [| e tr IH]; simpl; [reflexivity |].
  destruct e as [ | data [ | | ] | | | ]; simpl; rewrite IH; reflexivity.
Qed.

Lemma frame_at_selected (frames : list Frame.t) (k : nat) :
  frames <> [] ->
  nth_error frames (k mod length frames) = Some (frame_at frames k).
Proof.
  intros Hne. unfold frame_at. apply nth_error_nth'.
  apply Nat.mod_upper_bound. destruct frames; [congruence | discriminate].
Qed.

Lemma select_nonempty (frames : list Frame.t) (k : nat) (tr : trace) :
  frames <> [] ->
  select frames k tr = (tr, Ret (frame_at frames k)).
Proof.
  intros Hne. unfold select.
  rewrite (frame_at_selected frames k Hne).
  destruct frames; [congruence | reflexivity].
Qed.

Lemma select_empty (k : nat) (tr : trace) :
  select [] k tr = (tr, Raise ZeroDivisionError).
Proof. reflexivity. Qed.

Lemma ser_write_eq (w : world) (data : bytes) (tr : trace) :
  ser_write w data tr =
    (tr ++ [Write data (write_reply w (calls is_write tr))],
     raised_by (write_reply w (calls is_write tr))).
Proof.
  unfold ser_write, bind, emit, answer, ret, raise.
  destruct (write_reply w (calls is_write tr)); reflexivity.
Qed.

Lemma ser_flush_eq (w : world) (tr : trace) :
  ser_flush w tr =
    (tr ++ [Flush (flush_reply w (calls is_flush tr))],
     raised_by (flush_reply w (calls is_flush tr))).
Proof.
  unfold ser_flush, bind, emit, answer, ret, raise.
  destruct (flush_reply w (calls is_flush tr)); reflexivity.
Qed.

Lemma time_sleep_eq (w : world) (secs : pyfloat) (tr : trace) :
  time_sleep w secs tr =
    match sleep_error secs with
    | Some e => (tr ++ [Sleep secs Fault], Raise e)
    | None =>
        if sleep_signal w (calls is_sleep tr)
        then (tr ++ [Sleep secs Interrupt], Raise KeyboardInterrupt)
        else (tr ++ [Sleep secs Done], Ret tt)
    end.
Proof.
  unfold time_sleep, bind, emit, raise.
  destruct (sleep_error secs); [| destruct (sleep_signal w _)]; reflexivity.
Qed.

Lemma json_dumps_eq (frame : Frame.t) (tr : trace) :
  json_dumps frame tr =
    if Dumps.raises (VDict frame)
    then (tr, Raise ValueError)
    else (tr, Ret (Dumps.dumps frame)).
Proof.
  unfold json_dumps. destruct (Dumps.raises (VDict frame)); reflexivity.
Qed.

Lemma bind_eq {A B : Type} (m : M A) (k : A -> M B) (tr : trace) :
  bind m k tr =
    match m tr with
    | (tr', Ret a) => k a tr'
    | (tr', Raise e) => (tr', Raise e)
    | (tr', Running) => (tr', Running)
    end.
Proof. reflexivity. Qed.

Lemma loop_S (w : world) (frames : list Frame.t) (secs : pyfloat)
      (fuel k : nat) (tr : trace) :
  loop w (S fuel) frames secs k tr =
    bind (transmit w frames k)
         (fun k' => bind (time_sleep w secs)
                         (fun _ => loop w fuel frames secs k')) tr.
Proof. reflexivity. Qed.

Ltac count_calls :=
  unfold calls in *; rewrite ?filter_app, ?length_app; simpl;
  rewrite ?Nat.add_0_r.

(** One turn of the loop, as [turn] describes it. *)
Lemma loop_turn (w : world) (frames : list Frame.t) (secs : pyfloat)
      (fuel k : nat) (tr : trace) :
  frames <> [] ->
  in_step tr k ->
  loop w (S fuel) frames secs k tr =
    match turn w frames secs k with
    | (ext, None) => loop w fuel frames secs (k + 1) (tr ++ ext)
    | (ext, Some e) => (tr ++ ext, Raise e)
    end.
Proof.
  intros Hne (Hw & Hf & Hs).
  rewrite loop_S, bind_eq. unfold transmit.
  rewrite bind_eq, (select_nonempty frames k tr Hne).
  rewrite bind_eq, json_dumps_eq. unfold turn, round.
  destruct (Dumps.raises (VDict (frame_at frames k)));
    [rewrite List.app_nil_r; reflexivity |].
  rewrite bind_eq, ser_write_eq, Hw.
  fold (wire (frame_at frames k)).
  destruct (write_reply w k); cbn [raised_by]; try reflexivity.
  rewrite bind_eq, ser_flush_eq. count_calls. rewrite Hf.
  destruct (flush_reply w k); cbn [raised_by]; rewrite <- ?app_assoc;
    try reflexivity.
  unfold ret. rewrite bind_eq, time_sleep_eq. count_calls. rewrite Hs.
  destruct (sleep_error secs); [| destruct (sleep_signal w k)];
    rewrite <- ?app_assoc; reflexivity.
Qed.

Lemma in_step_round (frames : list Frame.t) (secs : pyfloat) (tr : trace) (k : nat) :
  in_step tr k -> in_step (tr ++ round frames secs k) (k + 1).
Proof.
  intros (Hw & Hf & Hs). unfold in_step, round.
  count_calls. rewrite Hw, Hf, Hs. auto.
Qed.

Lemma quiet_at_turn (w : world) (frames : list Frame.t) (secs : pyfloat)
      (k : nat) :
  Dumps.raises (VDict (frame_at frames k)) = false ->
  quiet_at w k = true ->
  sleep_error secs = None ->
  turn w frames secs k = (round frames secs k, None).
Proof.
  unfold quiet_at, turn. intros He Hq Hd. rewrite He.
  destruct (write_reply w k); try discriminate.
  destruct (flush_reply w k); try discriminate.
  rewrite Hd. destruct (sleep_signal w k); [discriminate | reflexivity].
Qed.

Lemma encodable_frame_at (frames : list Frame.t) (k : nat) :
  frames <> [] ->
  encodable frames = true ->
  Dumps.raises (VDict (frame_at frames k)) = false.
Proof.
  intros Hne He. unfold encodable in He. rewrite forallb_forall in He.
  apply negb_true_iff. apply He. unfold frame_at. apply nth_In.
  apply Nat.mod_upper_bound. destruct frames; [congruence | discriminate].
Qed.

Lemma in_step_rounds (frames : list Frame.t) (secs : pyfloat) (n : nat) :
  forall (tr : trace) (k : nat),
    in_step tr k -> in_step (tr ++ rounds frames secs k n) (k + n).
Proof.
  induction n as [| n IH]; intros tr k Hk; cbn [rounds].
  - rewrite app_nil_r, Nat.add_0_r. exact Hk.
  - rewrite app_assoc. replace (k + S n) with (S k + n) by lia.
    apply IH. replace (S k) with (k + 1) by lia.
    apply in_step_round. exact Hk.
Qed.

(** As long as nothing disturbs the loop, every turn appends one round
    and moves the cursor by one. *)
Lemma loop_quiet (w : world) (frames : list Frame.t) (secs : pyfloat) (fuel n : nat) :
  frames <> [] ->
  encodable frames = true ->
  sleep_error secs = None ->
  forall (tr : trace) (k : nat),
    in_step tr k ->
    forallb (quiet_at w) (seq k n) = true ->
    loop w (n + fuel) frames secs k tr =
      loop w fuel frames secs (k + n) (tr ++ rounds frames secs k n).
Proof.
  intros Hne Henc Hd. induction n as [| n IH]; intros tr k Hk Hq.
  - cbn [rounds Nat.add]. rewrite app_nil_r, Nat.add_0_r. reflexivity.
  - cbn [seq forallb] in Hq. apply andb_prop in Hq. destruct Hq as [Hq0 Hq].
    change (S n + fuel) with (S (n + fuel)).
    rewrite (loop_turn w frames secs (n + fuel) k tr Hne Hk).
    rewrite (quiet_at_turn w frames secs k
               (encodable_frame_at frames k Hne Henc) Hq0 Hd).
    replace (k + 1) with (S k) by lia.
    rewrite (IH (tr ++ round frames secs k) (S k)).
    + cbn [rounds]. rewrite app_assoc.
      replace (S k + n) with (k + S n) by lia. reflexivity.
    + replace (S k) with (k + 1) by lia. apply in_step_round. exact Hk.
    + exact Hq.
Qed.

(** A turn that does not raise is a full round. *)
Lemma turn_none_round (w : world) (frames : list Frame.t) (secs : pyfloat)
      (k : nat) (ext : trace) :
  turn w frames secs k = (ext, None) -> ext = round frames secs k.
Proof.
  unfold turn. intros H.
  destruct (Dumps.raises (VDict (frame_at frames k))); try discriminate.
  destruct (write_reply w k); try discriminate.
  destruct (flush_reply w k); try discriminate.
  destruct (sleep_error secs); try discriminate.
  destruct (sleep_signal w k); try discriminate.
  congruence.
Qed.

(** The shape of every run of the loop: some undisturbed rounds, then
    either the fuel is spent or a turn ends with an exception. *)
Lemma loop_shape (w : world) (frames : list Frame.t) (secs : pyfloat) (fuel : nat) :
  frames <> [] ->
  forall (tr : trace) (k : nat),
    in_step tr k ->
    exists n : nat,
      n <= fuel /\
      (loop w fuel frames secs k tr = (tr ++ rounds frames secs k n, Running)
       /\ n = fuel
       \/
       exists (ext : trace) (e : exn),
         turn w frames secs (k + n) = (ext, Some e) /\
         loop w fuel frames secs k tr =
           (tr ++ rounds frames secs k n ++ ext, Raise e)).
Proof.
  intros Hne. induction fuel as [| fuel IH]; intros tr k Hk.
  - exists 0. split; [lia |]. left. cbn [loop rounds].
    rewrite app_nil_r. split; reflexivity.
  - rewrite (loop_turn w frames secs fuel k tr Hne Hk).
    destruct (turn w frames secs k) as [ext [e |]] eqn:Hturn.
    + exists 0. split; [lia |]. right. exists ext, e.
      rewrite Nat.add_0_r. split; [exact Hturn | reflexivity].
    + apply turn_none_round in Hturn. subst ext.
      destruct (IH (tr ++ round frames secs k) (k + 1)
                   (in_step_round frames secs tr k Hk))
        as (n & Hle & [[Hrun Hn] | (ext & e & Ht & Hrun)]).
      * exists (S n). split; [lia |]. left. split; [| lia].
        rewrite Hrun. cbn [rounds]. rewrite <- app_assoc.
        replace (k + 1) with (S k) by lia. reflexivity.
      * exists (S n). split; [lia |]. right. exists ext, e. split.
        -- replace (k + S n) with (k + 1 + n) by lia. exact Ht.
        -- rewrite Hrun. cbn [rounds]. rewrite <- !app_assoc.
           replace (k + 1) with (S k) by lia. reflexivity.
Qed.

(** *** The process around the loop *)

Lemma in_step_opened (a : args) : in_step (opened a) 0.
Proof. repeat split. Qed.

Lemma run_with_opened (w : world) (frames : list Frame.t) (a : args) (fuel : nat) :
  serial_opens w = true ->
  run_with w frames a fuel =
    finally (except_KeyboardInterrupt (loop w fuel frames (delay a) 0))
            ser_close (opened a).
Proof.
  intros Hopen. unfold run_with, main_with, serial_Serial.
  rewrite Hopen. reflexivity.
Qed.

Lemma run_with_refused (w : world) (frames : list Frame.t) (a : args) (fuel : nat) :
  serial_opens w = false ->
  run_with w frames a fuel = (refused a, Raise SerialException).
Proof.
  intros Hopen. unfold run_with, main_with, serial_Serial.
  rewrite Hopen. reflexivity.
Qed.

Lemma guarded_raise (body : M unit) (tr tr' : trace) (e : exn) :
  body tr = (tr', Raise e) ->
  finally (except_KeyboardInterrupt body) ser_close tr =
    (tr' ++ [Close], after_cleanup e).
Proof.
  intros Hbody. unfold finally, except_KeyboardInterrupt. rewrite Hbody.
  destruct e; reflexivity.
Qed.

Lemma guarded_running (body : M unit) (tr tr' : trace) :
  body tr = (tr', Running) ->
  finally (except_KeyboardInterrupt body) ser_close tr = (tr', Running).
Proof.
  intros Hbody. unfold finally, except_KeyboardInterrupt. rewrite Hbody.
  reflexivity.
Qed.

(** Every run that opened the port: the rounds, then still running, or
    the events of the last turn, the release, and the way [main] ends. *)
Lemma run_shape (w : world) (a : args) (fuel : nat) :
  serial_opens w = true ->
  exists n : nat,
    n <= fuel /\
    (run w a fuel =
       (opened a ++ rounds build_frames (delay a) 0 n, Running)
     /\ n = fuel
     \/
     exists (ext : trace) (e : exn),
       turn w build_frames (delay a) n = (ext, Some e) /\
       run w a fuel =
         (opened a ++ rounds build_frames (delay a) 0 n ++ ext ++ [Close],
          after_cleanup e)).
Proof.
  intros Hopen. unfold run, main.
  change (main_with w call_build_frames a fuel [])
    with (run_with w build_frames a fuel).
  rewrite (run_with_opened w build_frames a fuel Hopen).
  destruct (loop_shape w build_frames (delay a) fuel ltac:(discriminate)
              (opened a) 0 (in_step_opened a))
    as (n & Hle & [[Hrun Hn] | (ext & e & Ht & Hrun)]).
  - exists n. split; [exact Hle |]. left. split; [| exact Hn].
    apply guarded_running. exact Hrun.
  - exists n. split; [exact Hle |]. right. exists ext, e. split; [exact Ht |].
    rewrite (guarded_raise _ _ _ e Hrun). rewrite <- !app_assoc. reflexivity.
Qed.

(** *** What the traces carry *)

Lemma payloads_rounds (frames : list Frame.t) (secs : pyfloat) (n : nat) :
  forall k : nat,
    payloads (rounds frames secs k n) =
      map (fun i => wire (frame_at frames i)) (seq k n).
Proof.
  induction n as [| n IH]; intros k; cbn [rounds seq map]; [reflexivity |].
  unfold round. cbn [app payloads]. rewrite IH. reflexivity.
Qed.

Lemma delivered_rounds (frames : list Frame.t) (secs : pyfloat) (n : nat) :
  forall k : nat,
    delivered (rounds frames secs k n) =
      map (fun i => wire (frame_at frames i)) (seq k n).
Proof.
  induction n as [| n IH]; intros k; cbn [rounds seq map]; [reflexivity |].
  unfold round. cbn [app delivered]. rewrite IH. reflexivity.
Qed.

Lemma calls_rounds_close (frames : list Frame.t) (secs : pyfloat) (n : nat) :
  forall k : nat, calls is_close (rounds frames secs k n) = 0.
Proof.
  induction n as [| n IH]; intros k; cbn [rounds]; [reflexivity |].
  rewrite calls_app, IH. reflexivity.
Qed.


(** Whatever happens in a turn, it starts by handing the message of the
    cursor to [ser.write]. *)
Ltac turn_cases w frames secs k :=
  unfold turn, round;
  destruct (Dumps.raises (VDict (frame_at frames k)));
  [| destruct (write_reply w k);
     [destruct (flush_reply w k);
      [destruct (sleep_error secs); [| destruct (sleep_signal w k)] | |] | |]].

Lemma turn_payloads (w : world) (frames : list Frame.t) (secs : pyfloat) (k : nat) :
  Dumps.raises (VDict (frame_at frames k)) = false ->
  payloads (fst (turn w frames secs k)) = [wire (frame_at frames k)].
Proof.
  intros He. unfold turn, round. rewrite He.
  destruct (write_reply w k); try reflexivity.
  destruct (flush_reply w k); try reflexivity.
  destruct (sleep_error secs); [| destruct (sleep_signal w k)]; reflexivity.
Qed.

Lemma turn_head (w : world) (frames : list Frame.t) (secs : pyfloat) (k : nat) :
  Dumps.raises (VDict (frame_at frames k)) = false ->
  exists (r : reply) (rest : trace),
    fst (turn w frames secs k) = Write (wire (frame_at frames k)) r :: rest.
Proof.
  intros He. unfold turn, round. rewrite He.
  destruct (write_reply w k); try (eexists; eexists; reflexivity).
  destruct (flush_reply w k); try (eexists; eexists; reflexivity).
  destruct (sleep_error secs); [| destruct (sleep_signal w k)];
    eexists; eexists; reflexivity.
Qed.

Lemma turn_no_close (w : world) (frames : list Frame.t) (secs : pyfloat) (k : nat) :
  calls is_close (fst (turn w frames secs k)) = 0.
Proof. turn_cases w frames secs k; reflexivity. Qed.


Lemma message_0 : message 0 = first_message.
Proof. vm_compute. reflexivity. Qed.

Lemma catalog_encodable : encodable build_frames = true.
Proof. reflexivity. Qed.

Lemma catalog_frame_encodable (k : nat) :
  Dumps.raises (VDict (frame_at build_frames k)) = false.
Proof.
  apply encodable_frame_at; [discriminate | exact catalog_encodable].
Qed.

(** *** The pauses [time.sleep] accepts and refuses *)






(** An undisturbed run of [n] turns. *)
Lemma run_quiet (w : world) (a : args) (n : nat) :
  serial_opens w = true ->
  sleep_accepts (delay a) ->
  quiet_before w n = true ->
  run w a n = (opened a ++ rounds build_frames (delay a) 0 n, Running).
Proof.
  intros Hopen Hd Hq. unfold run, main.
  change (main_with w call_build_frames a n [])
    with (run_with w build_frames a n).
  rewrite (run_with_opened w build_frames a n Hopen).
  apply guarded_running.
  replace n with (n + 0) at 1 by lia.
  rewrite (loop_quiet w build_frames (delay a) 0 n ltac:(discriminate)
             catalog_encodable Hd (opened a) 0 (in_step_opened a) Hq).
  reflexivity.
Qed.

Lemma run_refused (w : world) (a : args) (fuel : nat) :
  serial_opens w = false ->
  run w a fuel = (refused a, Raise SerialException).
Proof.
  intros Hopen. unfold run, main.
  change (main_with w call_build_frames a fuel [])
    with (run_with w build_frames a fuel).
  apply run_with_refused. exact Hopen.
Qed.

(** The messages of a run are those of the catalog entries, taken in
    order and cyclically, as far as the run got. *)
Lemma payloads_run (w : world) (a : args) (fuel : nat) :
  payloads (fst (run w a fuel)) =
    map message (seq 0 (length (payloads (fst (run w a fuel))))).
Proof.
  destruct (serial_opens w) eqn:Hopen.
  - destruct (run_shape w a fuel Hopen)
      as (n & Hle & [[Hrun Hn] | (ext & e & Ht & Hrun)]); rewrite Hrun; cbn [fst].
    + rewrite payloads_app, payloads_rounds. cbn [opened payloads app].
      rewrite length_map, length_seq. reflexivity.
    + rewrite !payloads_app, payloads_rounds.
      pose proof (turn_payloads w build_frames (delay a) n
                    (catalog_frame_encodable n)) as Hp.
      rewrite Ht in Hp. cbn [fst] in Hp. rewrite Hp.
      cbn [opened payloads app].
      rewrite !length_app, length_map, length_seq. cbn [length].
      rewrite Nat.add_1_r, seq_S, map_app. reflexivity.
  - rewrite (run_refused w a fuel Hopen). reflexivity.
Qed.

(** ** The claims *)

(** C1. In the scenario of the spec (the five frames of the catalog, the
    device opened), the first message handed to the port is the compact
    JSON text of the first descriptor, keys in insertion order, the brace
    markers copied as they are, followed by one line feed; the messages
    of every run are, in order, those of the catalog entries taken
    cyclically; and an undisturbed run of [fuel] turns, with a delay
    that [time.sleep] accepts, is [fuel] rounds of write, flush and
    pause, which deliver exactly the first [fuel] of them. *)
Theorem C1_messages_follow_the_catalog :
  forall (w : world) (a : args) (fuel : nat),
    serial_opens w = true ->
    message 0 = first_message /\
    (exists (r : reply) (rest : trace),
        fst (run w a (S fuel)) = opened a ++ Write first_message r :: rest) /\
    payloads (fst (run w a fuel)) =
      map message (seq 0 (length (payloads (fst (run w a fuel))))) /\
    (sleep_accepts (delay a) -> quiet_before w fuel = true ->
     fst (run w a fuel) = opened a ++ rounds build_frames (delay a) 0 fuel /\
     delivered (fst (run w a fuel)) = map message (seq 0 fuel)).
Proof.
  intros w a fuel Hopen. split; [exact message_0 |]. split; [| split].
  - destruct (run_shape w a (S fuel) Hopen)
      as (n & Hle & [[Hrun Hn] | (ext & e & Ht & Hrun)]).
    + subst n. rewrite Hrun. cbn [fst rounds round app].
      rewrite <- message_0. eexists; eexists; reflexivity.
    + rewrite Hrun. cbn [fst]. destruct n as [| n].
      * destruct (turn_head w build_frames (delay a) 0
                    (catalog_frame_encodable 0)) as (r & rest & Hhead).
        rewrite Ht in Hhead. cbn [fst] in Hhead. subst ext.
        cbn [rounds app]. rewrite <- message_0.
        eexists; eexists; reflexivity.
      * cbn [rounds round app]. rewrite <- message_0.
        eexists; eexists; reflexivity.
  - apply payloads_run.
  - intros Hd Hq. rewrite (run_quiet w a fuel Hopen Hd Hq). cbn [fst].
    split; [reflexivity |].
    rewrite delivered_app, delivered_rounds. reflexivity.
Qed.

Lemma C1_witness :
  serial_opens calm = true /\
  delivered (fst (run calm demo 7)) = map message (seq 0 7).
Proof.
  split; [reflexivity |].
  apply (C1_messages_follow_the_catalog calm demo 7).
  - reflexivity.
  - reflexivity.
  - reflexivity.
Defined.

(** *** One transmission *)

Lemma transmit_eq (w : world) (frames : list Frame.t) (k : nat) (tr : trace) :
  frames <> [] ->
  Dumps.raises (VDict (frame_at frames k)) = false ->
  transmit w frames k tr =
    let m := wire (frame_at frames k) in
    let r := write_reply w (calls is_write tr) in
    match r with
    | Done =>
        let r' := flush_reply w (calls is_flush tr) in
        (tr ++ [Write m Done; Flush r'],
         match r' with
         | Done => Ret (k + 1)
         | Fault => Raise SerialException
         | Interrupt => Raise KeyboardInterrupt
         end)
    | Fault => (tr ++ [Write m Fault], Raise SerialException)
    | Interrupt => (tr ++ [Write m Interrupt], Raise KeyboardInterrupt)
    end.
Proof.
  intros Hne Henc. unfold transmit.
  rewrite bind_eq, (select_nonempty frames k tr Hne).
  rewrite bind_eq, json_dumps_eq, Henc.
  rewrite bind_eq, ser_write_eq.
  fold (wire (frame_at frames k)). cbv zeta.
  destruct (write_reply w (calls is_write tr)); cbn [raised_by];
    try reflexivity.
  rewrite bind_eq, ser_flush_eq.
  assert (Hcount : calls is_flush
                     (tr ++ [Write (wire (frame_at frames k)) Done])
                   = calls is_flush tr).
  { rewrite calls_app. cbn. apply Nat.add_0_r. }
  rewrite Hcount.
  destruct (flush_reply w (calls is_flush tr)); cbn [raised_by];
    rewrite <- app_assoc; reflexivity.
Qed.

(** C2. The cursor [n] and the cursor [n + len(frames)] select the same
    frame of the catalog; a transmission whose write and flush succeed
    leaves the cursor at [n + 1], and no cursor comes out of a
    transmission otherwise. *)
Theorem C2_cyclic_selection :
  forall (w : world) (n : nat) (tr : trace),
    select build_frames (n + length build_frames) tr = select build_frames n tr /\
    frame_at build_frames (n + length build_frames) = frame_at build_frames n /\
    (write_reply w (calls is_write tr) = Done ->
     flush_reply w (calls is_flush tr) = Done ->
     transmit w build_frames n tr =
       (tr ++ [Write (message n) Done; Flush Done], Ret (n + 1))) /\
    (forall (tr' : trace) (n' : nat),
        transmit w build_frames n tr = (tr', Ret n') ->
        n' = n + 1 /\ tr' = tr ++ [Write (message n) Done; Flush Done]).
Proof.
  intros w n tr.
  assert (Hmod : (n + length build_frames) mod length build_frames
                 = n mod length build_frames).
  { change (length build_frames) with 5.
    replace (n + 5) with (n + 1 * 5) by lia. apply Nat.Div0.mod_add. }
  split; [| split; [| split]].
  - unfold select. rewrite Hmod. reflexivity.
  - unfold frame_at. rewrite Hmod. reflexivity.
  - intros Hw Hf.
    rewrite (transmit_eq w build_frames n tr ltac:(discriminate)
               (catalog_frame_encodable n)).
    cbv zeta. rewrite Hw, Hf. reflexivity.
  - intros tr' n'.
    rewrite (transmit_eq w build_frames n tr ltac:(discriminate)
               (catalog_frame_encodable n)).
    cbv zeta.
    destruct (write_reply w (calls is_write tr)); try discriminate.
    destruct (flush_reply w (calls is_flush tr)); try discriminate.
    intros Heq. inversion Heq. split; reflexivity.
Qed.

Lemma C2_witness :
  write_reply calm 0 = Done /\ flush_reply calm 0 = Done /\
  transmit calm build_frames 7 [] =
    ([Write (message 7) Done; Flush Done], Ret 8).
Proof.
  split; [reflexivity |]. split; [reflexivity |].
  apply (C2_cyclic_selection calm 7 []); reflexivity.
Defined.

(** C3. For every entry of the catalog, decoding its compact JSON text
    gives back a mapping equal to the entry. *)
Theorem C3_catalog_round_trip :
  forall f : Frame.t,
    In f build_frames ->
    Loads.loads (Dumps.dumps f) = Some (VDict f).
Proof.
  intros f Hin. cbn [build_frames In] in Hin.
  repeat (destruct Hin as [Hin | Hin];
          [subst f; apply loads_dumps; reflexivity |]).
  contradiction.
Qed.

Lemma C3_witness :
  In (frame_at build_frames 2) build_frames /\
  Loads.loads (Dumps.dumps (frame_at build_frames 2))
    = Some (VDict (frame_at build_frames 2)).
Proof.
  assert (Hin : In (frame_at build_frames 2) build_frames).
  { right. right. left. reflexivity. }
  split; [exact Hin |].
  apply (C3_catalog_round_trip (frame_at build_frames 2)). exact Hin.
Defined.

(** *** Runs that end *)

Lemma loop_empty_catalog (w : world) (secs : pyfloat) (fuel k : nat) (tr : trace) :
  loop w (S fuel) [] secs k tr = (tr, Raise ZeroDivisionError).
Proof. reflexivity. Qed.


(** The run whose turn [n], after [n] undisturbed ones, ends with an
    exception. *)
Lemma run_ends (w : world) (a : args) (n extra : nat) (ext : trace) (e : exn) :
  serial_opens w = true ->
  sleep_accepts (delay a) ->
  quiet_before w n = true ->
  turn w build_frames (delay a) n = (ext, Some e) ->
  run w a (S n + extra) =
    (opened a ++ rounds build_frames (delay a) 0 n ++ ext ++ [Close],
     after_cleanup e).
Proof.
  intros Hopen Hd Hq Ht. unfold run, main.
  change (main_with w call_build_frames a (S n + extra) [])
    with (run_with w build_frames a (S n + extra)).
  rewrite (run_with_opened w build_frames a (S n + extra) Hopen).
  rewrite (guarded_raise _ (opened a)
             ((opened a ++ rounds build_frames (delay a) 0 n) ++ ext) e).
  - rewrite <- !app_assoc. reflexivity.
  - replace (S n + extra) with (n + S extra) by lia.
    rewrite (loop_quiet w build_frames (delay a) (S extra) n
               ltac:(discriminate) catalog_encodable Hd
               (opened a) 0 (in_step_opened a) Hq).
    rewrite (loop_turn w build_frames (delay a) extra (0 + n)
               (opened a ++ rounds build_frames (delay a) 0 n)
               ltac:(discriminate)
               (in_step_rounds build_frames (delay a) n (opened a) 0
                  (in_step_opened a))).
    cbn [Nat.add]. rewrite Ht. reflexivity.
Qed.

Lemma calls_run_trace (kind : event -> bool) (a : args) (n : nat) (ext : trace) :
  calls kind (opened a ++ rounds build_frames (delay a) 0 n ++ ext ++ [Close]) =
    calls kind (opened a) + calls kind (rounds build_frames (delay a) 0 n)
    + calls kind ext + calls kind [Close].
Proof. rewrite !calls_app. lia. Qed.

(** C4, as the code has it.  The catalog has five entries, so at least
    one.  The script has no check for an empty catalog: it opens the
    port before it builds the catalog, and with an empty catalog the
    first selection, [idx % 0], raises [ZeroDivisionError] after the port
    is open; nothing is written, the port is released, and the exit
    status is 1.  When the port cannot be opened, that failure is the one
    reported. *)
Theorem C4_no_check_for_an_empty_catalog :
  length build_frames = 5 /\
  1 <= length build_frames /\
  (forall (w : world) (a : args) (fuel : nat),
      serial_opens w = true ->
      run_with w [] a (S fuel) = (opened a ++ [Close], Raise ZeroDivisionError)
      /\ exit_status (snd (run_with w [] a (S fuel))) = Some 1%Z) /\
  (forall (w : world) (a : args) (fuel : nat),
      serial_opens w = false ->
      run_with w [] a fuel = (refused a, Raise SerialException)).
Proof.
  split; [reflexivity |]. split; [cbn; lia |]. split.
  - intros w a fuel Hopen.
    rewrite (run_with_opened w [] a (S fuel) Hopen).
    rewrite (guarded_raise _ (opened a) (opened a) ZeroDivisionError
               (loop_empty_catalog w (delay a) fuel 0 (opened a))).
    split; reflexivity.
  - intros w a fuel Hopen. apply run_with_refused. exact Hopen.
Qed.

Lemma C4_witness :
  serial_opens calm = true /\
  run_with calm [] demo 1 = (opened demo ++ [Close], Raise ZeroDivisionError).
Proof.
  split; [reflexivity |].
  apply (C4_no_check_for_an_empty_catalog). reflexivity.
Defined.

(** C4, as the spec words it, fails: with an empty catalog the port is
    opened first and the error comes afterwards. *)
Lemma C4_counterexample :
  run_with calm [] demo 1 =
    ([Open "/dev/pts/3" 115200 1 true; Close], Raise ZeroDivisionError) /\
  calls is_open (fst (run_with calm [] demo 1)) <> 0.
Proof. split; [reflexivity | discriminate]. Qed.

(** C5. The port opens, the delay is one [time.sleep] accepts (any
    delay from 0 to 9223372036 seconds is), the first two turns
    are undisturbed and the third write fails: the run consists of two
    rounds with a successful write and flush each, the failed write, and
    one release; the [SerialException] leaves [main] and the exit status
    is 1. *)
Theorem C5_failure_on_the_third_write :
  forall (w : world) (a : args) (extra : nat),
    serial_opens w = true ->
    sleep_accepts (delay a) ->
    quiet_before w 2 = true ->
    write_reply w 2 = Fault ->
    run w a (3 + extra) =
      (opened a ++ rounds build_frames (delay a) 0 2
         ++ [Write (message 2) Fault; Close],
       Raise SerialException) /\
    delivered (fst (run w a (3 + extra))) = [message 0; message 1] /\
    calls is_flushed (fst (run w a (3 + extra))) = 2 /\
    calls is_write (fst (run w a (3 + extra))) = 3 /\
    calls is_close (fst (run w a (3 + extra))) = 1 /\
    exit_status (snd (run w a (3 + extra))) = Some 1%Z.
Proof.
  intros w a extra Hopen Hd Hq Hw.
  assert (Ht : turn w build_frames (delay a) 2
               = ([Write (message 2) Fault], Some SerialException)).
  { unfold turn. rewrite Hw. reflexivity. }
  rewrite (run_ends w a 2 extra _ _ Hopen Hd Hq Ht).
  repeat split.
Qed.

Lemma C5_witness :
  delivered (fst (run third_write_fails demo 3)) = [message 0; message 1] /\
  calls is_close (fst (run third_write_fails demo 3)) = 1 /\
  exit_status (snd (run third_write_fails demo 3)) = Some 1%Z.
Proof.
  assert (Hd : sleep_accepts (delay demo)) by reflexivity.
  destruct (C5_failure_on_the_third_write third_write_fails demo 0
              eq_refl Hd eq_refl eq_refl)
    as (_ & Hdel & _ & _ & Hclose & Hexit).
  split; [exact Hdel |]. split; [exact Hclose | exact Hexit].
Defined.

(** C6. When the port cannot be opened, the run is the failed attempt
    alone: no write is attempted, nothing is released, the exception
    leaves [main] and the exit status is 1. *)
Theorem C6_failed_acquisition :
  forall (w : world) (a : args) (fuel : nat),
    serial_opens w = false ->
    run w a fuel = (refused a, Raise SerialException) /\
    calls is_write (fst (run w a fuel)) = 0 /\
    calls is_close (fst (run w a fuel)) = 0 /\
    exit_status (snd (run w a fuel)) = Some 1%Z.
Proof.
  intros w a fuel Hopen.
  rewrite (run_refused w a fuel Hopen). repeat split.
Qed.

Lemma C6_witness :
  serial_opens no_device = false /\
  run no_device demo 9 =
    ([Open "/dev/pts/3" 115200 1 false], Raise SerialException).
Proof.
  split; [reflexivity |].
  apply (C6_failed_acquisition no_device demo 9). reflexivity.
Defined.

Lemma turn_interrupted (w : world) (frames : list Frame.t) (secs : pyfloat)
      (k : nat) (p : phase) :
  Dumps.raises (VDict (frame_at frames k)) = false ->
  sleep_error secs = None ->
  interrupted_in w k p = true ->
  turn w frames secs k = (cut_round frames secs k p, Some KeyboardInterrupt).
Proof.
  intros He Hd Hint. unfold turn, cut_round. rewrite He, Hd.
  destruct p; cbn [interrupted_in] in Hint.
  - destruct (write_reply w k); try discriminate. reflexivity.
  - destruct (write_reply w k); try discriminate.
    destruct (flush_reply w k); try discriminate. reflexivity.
  - destruct (write_reply w k); try discriminate.
    destruct (flush_reply w k); try discriminate.
    cbn in Hint. rewrite Hint. reflexivity.
Qed.

Lemma calls_cut_round_close (frames : list Frame.t) (secs : pyfloat) (k : nat) (p : phase) :
  calls is_close (cut_round frames secs k p) = 0.
Proof. destruct p; reflexivity. Qed.

(** C7. The port opens, the delay is one [time.sleep] accepts (any
    delay from 0 to 9223372036 seconds is), and after [n]
    undisturbed turns the interrupt signal arrives in turn [n], in
    whichever phase: the write, the flush or the pause.  Then [main]
    returns normally, the port has been released exactly once, as the
    last event, and the exit status is 0. *)
Theorem C7_interrupt_is_a_normal_exit :
  forall (w : world) (a : args) (n extra : nat) (p : phase),
    serial_opens w = true ->
    sleep_accepts (delay a) ->
    quiet_before w n = true ->
    interrupted_in w n p = true ->
    run w a (S n + extra) =
      (opened a ++ rounds build_frames (delay a) 0 n
         ++ cut_round build_frames (delay a) n p ++ [Close],
       Ret tt) /\
    calls is_close (fst (run w a (S n + extra))) = 1 /\
    exit_status (snd (run w a (S n + extra))) = Some 0%Z.
Proof.
  intros w a n extra p Hopen Hd Hq Hint.
  pose proof (turn_interrupted w build_frames (delay a) n p
                (catalog_frame_encodable n) Hd Hint) as Ht.
  rewrite (run_ends w a n extra _ _ Hopen Hd Hq Ht). cbn [fst snd].
  split; [reflexivity |]. split; [| reflexivity].
  rewrite calls_run_trace, calls_rounds_close, calls_cut_round_close.
  reflexivity.
Qed.

Lemma C7_witness :
  run interrupted_while_waiting demo 4 =
    (opened demo ++ rounds build_frames (delay demo) 0 3
       ++ cut_round build_frames (delay demo) 3 Waiting ++ [Close],
     Ret tt) /\
  exit_status (snd (run interrupted_while_waiting demo 4)) = Some 0%Z.
Proof.
  assert (Hd : sleep_accepts (delay demo)) by reflexivity.
  destruct (C7_interrupt_is_a_normal_exit interrupted_while_waiting demo 3 0
              Waiting eq_refl Hd eq_refl eq_refl)
    as (Hrun & _ & Hexit).
  split; [exact Hrun | exact Hexit].
Defined.

(** Every run that has ended after opening the port has released it
    exactly once, and the release is its last event. *)
Lemma release_exactly_once (w : world) (a : args) (fuel : nat) :
  serial_opens w = true ->
  snd (run w a fuel) <> Running ->
  calls is_close (fst (run w a fuel)) = 1 /\
  exists tr : trace, fst (run w a fuel) = tr ++ [Close].
Proof.
  intros Hopen Hended.
  destruct (run_shape w a fuel Hopen)
    as (n & Hle & [[Hrun Hn] | (ext & e & Ht & Hrun)]).
  - rewrite Hrun in Hended. cbn in Hended. congruence.
  - rewrite Hrun. cbn [fst]. split.
    + rewrite calls_run_trace, calls_rounds_close.
      pose proof (turn_no_close w build_frames (delay a) n) as Hc.
      rewrite Ht in Hc. cbn [fst] in Hc. rewrite Hc. reflexivity.
    + exists (opened a ++ rounds build_frames (delay a) 0 n ++ ext).
      rewrite <- !app_assoc. reflexivity.
Qed.

(** C8. The call [build_frames()] leaves the trace as it is and returns
    the catalog, whatever happened before, so every call returns the
    same sequence; the catalog has five entries, so at least one; every
    field value is a text, an integer or a boolean; and no dict literal
    repeats a key. *)
Theorem C8_build_frames_is_pure :
  (forall tr : trace, call_build_frames tr = (tr, Ret build_frames)) /\
  length build_frames = 5 /\
  1 <= length build_frames /\
  Forall (fun f : Frame.t =>
            Forall (fun kv => is_primitive (snd kv) = true) f) build_frames /\
  Forall (fun f : Frame.t => NoDup (keys f)) build_frames.
Proof.
  split; [reflexivity |]. split; [reflexivity |]. split; [cbn; lia |]. split.
  - repeat constructor.
  - repeat (apply Forall_cons || apply Forall_nil);
      cbn [keys map fst];
      repeat (apply NoDup_cons || apply NoDup_nil);
      cbn [In]; intuition discriminate.
Qed.

(** *** The pause *)








(** *** Framing *)

Lemma framed_count (data : bytes) : framed data -> count_LF data = 1.
Proof.
  intros (body & -> & Hnot). unfold count_LF.
  rewrite filter_app, length_app.
  assert (Hnone : filter (Byte.eqb LF) body = []).
  { clear -Hnot. induction body as [| b body IH]; [reflexivity |].
    cbn [filter]. destruct (Byte.eqb LF b) eqn:E.
    - apply Byte.byte_dec_bl in E. subst b. exfalso. apply Hnot. left. reflexivity.
    - apply IH. intros Hin. apply Hnot. right. exact Hin. }
  rewrite Hnone. reflexivity.
Qed.

Lemma frame_at_in (k : nat) : In (frame_at build_frames k) build_frames.
Proof.
  unfold frame_at. apply nth_In. apply Nat.mod_upper_bound. discriminate.
Qed.

(** C10. Every message handed to the port, in every run, holds exactly
    one line feed, and it is its last byte; no key and no text value of
    the catalog holds a line feed; and the encoding introduces none,
    whatever the frame: a line feed inside a text would be written as an
    escape. *)
Theorem C10_one_newline_per_message :
  (forall (w : world) (a : args) (fuel : nat) (data : bytes),
      In data (payloads (fst (run w a fuel))) ->
      framed data /\ count_LF data = 1) /\
  Forall (fun f : Frame.t => Forall (fun s => one_line s = true) (texts f))
         build_frames /\
  (forall f : Frame.t, framed (wire f)).
Proof.
  split; [| split].
  - intros w a fuel data Hin. rewrite payloads_run in Hin.
    apply in_map_iff in Hin. destruct Hin as (k & <- & _).
    pose proof (wire_framed (frame_at build_frames k)) as Hf.
    split; [exact Hf | apply framed_count; exact Hf].
  - repeat constructor.
  - exact wire_framed.
Qed.

Lemma C10_witness :
  In (message 1) (payloads (fst (run calm demo 3))) /\
  framed (message 1) /\ count_LF (message 1) = 1.
Proof.
  assert (Hin : In (message 1) (payloads (fst (run calm demo 3)))).
  { right. left. reflexivity. }
  split; [exact Hin |].
  apply (proj1 C10_one_newline_per_message calm demo 3 (message 1) Hin).
Defined.

(** ** Further properties of the loop *)


(** The shape of the runs, for any catalog that is not empty. *)
Lemma run_with_shape (w : world) (frames : list Frame.t) (a : args) (fuel : nat) :
  frames <> [] ->
  serial_opens w = true ->
  exists n : nat,
    n <= fuel /\
    (run_with w frames a fuel =
       (opened a ++ rounds frames (delay a) 0 n, Running)
     /\ n = fuel
     \/
     exists (ext : trace) (e : exn),
       turn w frames (delay a) n = (ext, Some e) /\
       run_with w frames a fuel =
         (opened a ++ rounds frames (delay a) 0 n ++ ext ++ [Close],
          after_cleanup e)).
Proof.
  intros Hne Hopen. rewrite (run_with_opened w frames a fuel Hopen).
  destruct (loop_shape w frames (delay a) fuel Hne (opened a) 0
              (in_step_opened a))
    as (n & Hle & [[Hrun Hn] | (ext & e & Ht & Hrun)]).
  - exists n. split; [exact Hle |]. left. split; [| exact Hn].
    apply guarded_running. exact Hrun.
  - exists n. split; [exact Hle |]. right. exists ext, e. split; [exact Ht |].
    rewrite (guarded_raise _ _ _ e Hrun). rewrite <- !List.app_assoc.
    reflexivity.
Qed.

(** How a run that opened the port can stand: still in the loop after
    [n] rounds, or out of it after [n] rounds and a last turn [ext] that
    raised [e]. *)
Lemma run_with_cases (w : world) (frames : list Frame.t) (a : args) (fuel : nat) :
  serial_opens w = true ->
  run_with w frames a fuel
  = (opened a ++ rounds frames (delay a) 0 fuel, Running)
  \/
  exists (n : nat) (ext : trace) (e : exn),
    n < fuel /\
    (frames = [] /\ n = 0 /\ ext = [] /\ e = ZeroDivisionError
     \/ frames <> [] /\ turn w frames (delay a) n = (ext, Some e)) /\
    run_with w frames a fuel
    = (opened a ++ rounds frames (delay a) 0 n ++ ext ++ [Close],
       after_cleanup e).
Proof.
  intros Hopen. destruct frames as [| f frames].
  - rewrite (run_with_opened w [] a fuel Hopen). destruct fuel as [| fuel].
    + left. reflexivity.
    + right. exists 0, [], ZeroDivisionError. split; [lia |].
      split; [left; repeat split |].
      apply (guarded_raise _ (opened a) (opened a) ZeroDivisionError
               (loop_empty_catalog w (delay a) fuel 0 (opened a))).
  - rewrite (run_with_opened w (f :: frames) a fuel Hopen).
    assert (Hstep : forall fuel tr k,
               in_step tr k ->
               loop w fuel (f :: frames) (delay a) k tr
               = (tr ++ rounds (f :: frames) (delay a) k fuel, Running)
               \/ exists n ext e,
                   n < fuel /\
                   turn w (f :: frames) (delay a) (k + n) = (ext, Some e) /\
                   loop w fuel (f :: frames) (delay a) k tr
                   = (tr ++ rounds (f :: frames) (delay a) k n ++ ext, Raise e)).
    { clear fuel. induction fuel as [| fuel IH]; intros tr k Hk.
      - left. cbn [loop rounds]. rewrite List.app_nil_r. reflexivity.
      - rewrite (loop_turn w (f :: frames) (delay a) fuel k tr
                   ltac:(discriminate) Hk).
        destruct (turn w (f :: frames) (delay a) k) as [ext [e |]] eqn:Hturn.
        + right. exists 0, ext, e. rewrite Nat.add_0_r.
          split; [lia |]. split; [exact Hturn | reflexivity].
        + apply turn_none_round in Hturn. subst ext.
          destruct (IH (tr ++ round (f :: frames) (delay a) k) (k + 1)
                       (in_step_round _ _ tr k Hk))
            as [Hrun | (n & ext & e & Hlt & Ht & Hrun)].
          * left. rewrite Hrun. cbn [rounds]. rewrite <- List.app_assoc.
            replace (k + 1) with (S k) by lia. reflexivity.
          * right. exists (S n), ext, e. split; [lia |]. split.
            -- replace (k + S n) with (k + 1 + n) by lia. exact Ht.
            -- rewrite Hrun. cbn [rounds]. rewrite <- !List.app_assoc.
               replace (k + 1) with (S k) by lia. reflexivity. }
    destruct (Hstep fuel (opened a) 0 (in_step_opened a))
      as [Hrun | (n & ext & e & Hlt & Ht & Hrun)].
    + left. apply guarded_running. exact Hrun.
    + right. exists n, ext, e. split; [exact Hlt |].
      split; [right; split; [discriminate | exact Ht] |].
      rewrite (guarded_raise _ _ _ e Hrun). rewrite <- !List.app_assoc.
      reflexivity.
Qed.



Lemma run_is_run_with (w : world) (a : args) (fuel : nat) :
  run w a fuel = run_with w build_frames a fuel.
Proof. reflexivity. Qed.

Lemma paced_rounds (frames : list Frame.t) (secs : pyfloat) (n : nat) :
  forall k : nat, Forall (paced secs) (rounds frames secs k n).
Proof.
  induction n as [| n IH]; intros k; cbn [rounds]; [constructor |].
  apply Forall_app. split; [| apply IH].
  unfold round. repeat constructor.
Qed.

Lemma paced_turn (w : world) (frames : list Frame.t) (secs : pyfloat) (k : nat) :
  Forall (paced secs) (fst (turn w frames secs k)).
Proof. turn_cases w frames secs k; repeat constructor. Qed.

(** X5. Every pause of every run, whatever the catalog, is asked for
    with exactly the delay of the command line: the script never
    shortens, lengthens or skips the pause between two frames. *)
Theorem X5_every_pause_is_the_delay :
  forall (w : world) (frames : list Frame.t) (a : args) (fuel : nat),
    Forall (paced (delay a)) (fst (run_with w frames a fuel)).
Proof.
  intros w frames a fuel. destruct (serial_opens w) eqn:Hopen.
  - destruct (run_with_cases w frames a fuel Hopen)
      as [Hrun | (n & ext & e & Hlt & Hcut & Hrun)]; rewrite Hrun; cbn [fst].
    + apply Forall_app. split; [repeat constructor | apply paced_rounds].
    + apply Forall_app. split; [repeat constructor |].
      apply Forall_app. split; [apply paced_rounds |].
      apply Forall_app. split; [| repeat constructor].
      destruct Hcut as [(_ & _ & -> & _) | (_ & Ht)]; [constructor |].
      pose proof (paced_turn w frames (delay a) n) as Hp.
      rewrite Ht in Hp. exact Hp.
  - rewrite (run_with_refused w frames a fuel Hopen). repeat constructor.
Qed.

Lemma turn_failed (w : world) (frames : list Frame.t) (secs : pyfloat)
      (k : nat) (p : phase) :
  Dumps.raises (VDict (frame_at frames k)) = false ->
  failed_in w k p = true ->
  turn w frames secs k = (failed_round frames k p, Some SerialException).
Proof.
  intros He Hf. unfold turn, failed_round. rewrite He.
  destruct p; cbn [failed_in] in Hf.
  - destruct (write_reply w k); try discriminate. reflexivity.
  - destruct (write_reply w k); try discriminate.
    destruct (flush_reply w k); try discriminate. reflexivity.
  - discriminate.
Qed.

(** X6. A fault of the port in any turn, in the write or in the flush,
    ends the run the same way.  After [n] undisturbed turns, with a delay
    that [time.sleep] accepts, the run is those [n] rounds, the turn cut short
    and one release; the frames written are the first [n], and one more
    when it is the flush that failed; the exception leaves [main] and the
    exit status is 1. *)
Theorem X6_a_fault_in_any_turn :
  forall (w : world) (a : args) (n extra : nat) (p : phase),
    serial_opens w = true ->
    sleep_accepts (delay a) ->
    quiet_before w n = true ->
    failed_in w n p = true ->
    run w a (S n + extra) =
      (opened a ++ rounds build_frames (delay a) 0 n
         ++ failed_round build_frames n p ++ [Close],
       Raise SerialException) /\
    delivered (fst (run w a (S n + extra)))
    = map message (seq 0 (written_before n p)) /\
    calls is_close (fst (run w a (S n + extra))) = 1 /\
    exit_status (snd (run w a (S n + extra))) = Some 1%Z.
Proof.
  intros w a n extra p Hopen Hd Hq Hf.
  pose proof (turn_failed w build_frames (delay a) n p
                (catalog_frame_encodable n) Hf) as Ht.
  rewrite (run_ends w a n extra _ _ Hopen Hd Hq Ht). cbn [fst snd].
  split; [reflexivity |]. split; [| split; [| reflexivity]].
  - rewrite !delivered_app, delivered_rounds. cbn [opened delivered app].
    destruct p; cbn [failed_round delivered written_before app].
    + rewrite List.app_nil_r. reflexivity.
    + rewrite seq_S, map_app. reflexivity.
    + discriminate Hf.
  - rewrite calls_run_trace, calls_rounds_close.
    destruct p; reflexivity.
Qed.

Lemma X6_witness :
  delivered (fst (run third_write_fails demo 8)) = map message (seq 0 2) /\
  exit_status (snd (run third_write_fails demo 8)) = Some 1%Z.
Proof.
  assert (Hd : sleep_accepts (delay demo)) by reflexivity.
  destruct (X6_a_fault_in_any_turn third_write_fails demo 2 5 Sending_write
              eq_refl Hd eq_refl eq_refl)
    as (_ & Hdel & _ & Hexit).
  split; [exact Hdel | exact Hexit].
Defined.

(** ** Further properties of the selection *)

(** X9. The index [idx % len(frames)] is always in bounds.  With a
    catalog that is not empty the selection succeeds for every cursor,
    returns a frame of the catalog and touches nothing; with an empty
    catalog it raises [ZeroDivisionError]; it never raises
    [IndexError]. *)
Theorem X9_selection_stays_in_bounds :
  forall (frames : list Frame.t) (idx : nat) (tr : trace),
    (frames = [] -> select frames idx tr = (tr, Raise ZeroDivisionError)) /\
    (frames <> [] ->
     exists frame : Frame.t,
       select frames idx tr = (tr, Ret frame) /\
       In frame frames /\
       nth_error frames (idx mod length frames) = Some frame) /\
    snd (select frames idx tr) <> Raise IndexError.
Proof.
  intros frames idx tr. split; [| split].
  - intros ->. reflexivity.
  - intros Hne. exists (frame_at frames idx).
    split; [apply select_nonempty; exact Hne |].
    pose proof (frame_at_selected frames idx Hne) as Hnth.
    split; [| exact Hnth]. apply (nth_error_In _ _ Hnth).
  - destruct frames as [| f frames]; [discriminate |].
    rewrite (select_nonempty (f :: frames) idx tr ltac:(discriminate)).
    discriminate.
Qed.

Lemma X9_witness :
  exists frame : Frame.t,
    select build_frames 12 [] = ([], Ret frame) /\ In frame build_frames.
Proof.
  destruct (proj1 (proj2 (X9_selection_stays_in_bounds build_frames 12 []))
              ltac:(discriminate))
    as (frame & Hsel & Hin & _).
  exists frame. split; [exact Hsel | exact Hin].
Defined.

Lemma window_hits (len i start : nat) :
  i < len ->
  exists k : nat, k < len /\ (start + k) mod len = i.
Proof.
  intros Hi. exists ((i + len - start mod len) mod len).
  assert (Hlen : len <> 0) by lia.
  pose proof (Nat.mod_upper_bound start len Hlen) as Hs.
  split; [apply Nat.mod_upper_bound; exact Hlen |].
  rewrite Nat.Div0.add_mod_idemp_r.
  rewrite <- Nat.Div0.add_mod_idemp_l.
  replace (start mod len + (i + len - start mod len)) with (i + 1 * len) by lia.
  rewrite Nat.Div0.mod_add. apply Nat.mod_small. exact Hi.
Qed.

Lemma every_frame_in_each_window (frames : list Frame.t) (f : Frame.t)
      (start : nat) :
  In f frames ->
  exists k : nat, k < length frames /\ frame_at frames (start + k) = f.
Proof.
  intros Hin. destruct (In_nth frames f [] Hin) as (i & Hi & Hnth).
  destruct (window_hits (length frames) i start Hi) as (k & Hk & Hmod).
  exists k. split; [exact Hk |]. unfold frame_at. rewrite Hmod. exact Hnth.
Qed.

Lemma nth_error_messages (n i : nat) :
  i < n -> nth_error (map message (seq 0 n)) i = Some (message i).
Proof.
  intros Hi. rewrite nth_error_map, nth_error_seq.
  apply Nat.ltb_lt in Hi. rewrite Hi. reflexivity.
Qed.

(** X10. The rotation leaves no frame out.  For any catalog, among any
    [len(frames)] consecutive cursor values each frame of the catalog is
    selected; and in an undisturbed run of the script, with a delay that
    [time.sleep] accepts, every frame of the catalog is delivered within
    any five consecutive transmissions. *)
Theorem X10_every_frame_comes_round :
  (forall (frames : list Frame.t) (f : Frame.t) (start : nat),
      In f frames ->
      exists k : nat, k < length frames /\ frame_at frames (start + k) = f) /\
  (forall (w : world) (a : args) (fuel start : nat) (f : Frame.t),
      serial_opens w = true ->
      sleep_accepts (delay a) ->
      quiet_before w fuel = true ->
      start + 5 <= fuel ->
      In f build_frames ->
      exists k : nat,
        k < 5 /\
        nth_error (delivered (fst (run w a fuel))) (start + k) = Some (wire f)).
Proof.
  split; [exact every_frame_in_each_window |].
  intros w a fuel start f Hopen Hd Hq Hfuel Hin.
  destruct (every_frame_in_each_window build_frames f start Hin)
    as (k & Hk & Hf).
  change (length build_frames) with 5 in Hk.
  exists k. split; [exact Hk |].
  rewrite (run_quiet w a fuel Hopen Hd Hq). cbn [fst].
  rewrite delivered_app, delivered_rounds. cbn [opened delivered app].
  change (map (fun i => wire (frame_at build_frames i)) (seq 0 fuel))
    with (map message (seq 0 fuel)).
  rewrite nth_error_messages by lia. unfold message. rewrite Hf. reflexivity.
Qed.

Lemma X10_witness :
  exists k : nat,
    k < 5 /\
    nth_error (delivered (fst (run calm demo 20))) (7 + k)
    = Some (wire (frame_at build_frames 0)).
Proof.
  assert (Hd : sleep_accepts (delay demo)) by reflexivity.
  assert (Hin : In (frame_at build_frames 0) build_frames)
    by (left; reflexivity).
  assert (Hfuel : 7 + 5 <= 20) by lia.
  exact (proj2 X10_every_frame_comes_round calm demo 20 7
           (frame_at build_frames 0) eq_refl Hd eq_refl Hfuel Hin).
Defined.

(** ** Further properties of the serialisation *)

(** X13. Whatever the texts of a frame hold, its message is printable
    ASCII followed by the line feed: the JSON text has only characters
    from space to tilde, and its UTF-8 encoding is that text byte for
    character. *)
Theorem X13_messages_are_printable_ascii :
  forall f : Frame.t,
    all_printable (Dumps.dumps f) = true /\
    wire f = map byte_of_ascii (list_ascii_of_string (Dumps.dumps f)) ++ [LF].
Proof.
  intros f. split; [apply printable_dumps | apply wire_bytes].
Qed.

Lemma map_byte_of_ascii_inj (l l' : list ascii) :
  map byte_of_ascii l = map byte_of_ascii l' -> l = l'.
Proof.
  intros H. apply (f_equal (map ascii_of_byte)) in H.
  rewrite !map_map in H.
  rewrite !(map_ext _ (fun c => c) ascii_of_byte_of_ascii), !map_id in H.
  exact H.
Qed.

Lemma wire_dumps_inj (f g : Frame.t) :
  wire f = wire g -> Dumps.dumps f = Dumps.dumps g.
Proof.
  rewrite !wire_bytes. intros H. apply app_inj_tail in H. destruct H as [H _].
  apply map_byte_of_ascii_inj in H.
  apply (f_equal string_of_list_ascii) in H.
  rewrite !string_of_list_ascii_of_string in H. exact H.
Qed.

Lemma wire_injective (f g : Frame.t) :
  well_formed (VDict f) = true -> Dumps.raises (VDict f) = false ->
  well_formed (VDict g) = true -> Dumps.raises (VDict g) = false ->
  wire f = wire g ->
  f = g.
Proof.
  intros Hf Ef Hg Eg H. apply wire_dumps_inj in H.
  pose proof (loads_dumps f Hf Ef) as Lf.
  pose proof (loads_dumps g Hg Eg) as Lg.
  rewrite H in Lf. rewrite Lf in Lg. inversion Lg. reflexivity.
Qed.

Lemma spaceless_app (s t : string) :
  spaceless (s ++ t)%string = spaceless s && spaceless t.
Proof.
  induction s as [| c s IH]; cbn [String.append spaceless]; [reflexivity |].
  rewrite IH. apply andb_assoc.
Qed.

Lemma spaceless_escape_char (c : ascii) :
  negb (Ascii.eqb c " ") = true -> spaceless (Dumps.escape_char c) = true.
Proof. each_ascii c; intros H; try discriminate H; reflexivity. Qed.

Lemma spaceless_escape (s : string) :
  no_space s = true -> spaceless (Dumps.escape s) = true.
Proof.
  induction s as [| c s IH]; cbn [no_space Dumps.escape]; [reflexivity |].
  intros H. apply andb_prop in H. destruct H as [Hc Hs].
  rewrite spaceless_app, (spaceless_escape_char c Hc), (IH Hs). reflexivity.
Qed.

Lemma spaceless_basestring (s : string) :
  no_space s = true -> spaceless (Dumps.encode_basestring_ascii s) = true.
Proof.
  intros H. unfold Dumps.encode_basestring_ascii. cbn [spaceless].
  rewrite spaceless_app, (spaceless_escape s H). reflexivity.
Qed.

Lemma spaceless_uint (d : Decimal.uint) :
  spaceless (NilEmpty.string_of_uint d) = true.
Proof. induction d; cbn [NilEmpty.string_of_uint spaceless]; auto. Qed.

Lemma spaceless_int_repr (z : Z) : spaceless (Dumps.int_repr z) = true.
Proof.
  unfold Dumps.int_repr, NilZero.string_of_int, NilZero.string_of_uint.
  destruct (Z.to_int z) as [d | d]; destruct d; cbn [spaceless];
    try reflexivity; apply spaceless_uint.
Qed.

Lemma spaceless_join_items (items : list value) :
  Forall (fun x => texts_without_space x = true ->
                   spaceless (Dumps.encode_value x) = true) items ->
  forallb texts_without_space items = true ->
  spaceless (Dumps.join_items items) = true.
Proof.
  induction 1 as [| x rest Hx Hrest IH]; [reflexivity |].
  cbn [forallb]. intros H. apply andb_prop in H. destruct H as [Htx Htr].
  cbn [Dumps.join_items]. destruct rest as [| y rest']; [exact (Hx Htx) |].
  rewrite !spaceless_app, (Hx Htx), (IH Htr). reflexivity.
Qed.

Lemma spaceless_join_fields (fields : list (string * value)) :
  Forall (fun kv => texts_without_space (snd kv) = true ->
                    spaceless (Dumps.encode_value (snd kv)) = true) fields ->
  forallb (fun kv => no_space (fst kv) && texts_without_space (snd kv)) fields
  = true ->
  spaceless (Dumps.join_fields fields) = true.
Proof.
  induction 1 as [| [k x] rest Hx Hrest IH]; [reflexivity |].
  cbn [forallb fst snd]. intros H. apply andb_prop in H.
  destruct H as [Hkx Htr]. apply andb_prop in Hkx. destruct Hkx as [Hk Htx].
  cbn [snd] in Hx. cbn [Dumps.join_fields]. destruct rest as [| y rest'].
  - rewrite !spaceless_app, (spaceless_basestring k Hk), (Hx Htx). reflexivity.
  - rewrite !spaceless_app, (spaceless_basestring k Hk), (Hx Htx), (IH Htr).
    reflexivity.
Qed.

Lemma spaceless_encode_value (v : value) :
  texts_without_space v = true -> spaceless (Dumps.encode_value v) = true.
Proof.
  induction v as [| b | z | s | items IH | fields IH] using value_induction;
    intros Ht.
  - reflexivity.
  - destruct b; reflexivity.
  - apply spaceless_int_repr.
  - apply spaceless_basestring. exact Ht.
  - change (forallb texts_without_space items = true) in Ht.
    rewrite encode_list, !spaceless_app, (spaceless_join_items items IH Ht).
    reflexivity.
  - change (forallb (fun kv => no_space (fst kv) && texts_without_space (snd kv))
                    fields = true) in Ht.
    rewrite encode_dict, !spaceless_app, (spaceless_join_fields fields IH Ht).
    reflexivity.
Qed.

(** X15. The compact separators add no white space.  If no key and no
    text of a frame holds a space, its JSON text holds no white space at
    all: tabs and line ends inside a text are written as escapes, and
    nothing is put between the tokens. *)
Theorem X15_no_white_space_between_tokens :
  forall f : Frame.t,
    texts_without_space (VDict f) = true ->
    spaceless (Dumps.dumps f) = true.
Proof. intros f. apply spaceless_encode_value. Qed.

Lemma X15_witness :
  texts_without_space
    (VDict [("bar_value", VInt 730); ("tabs", VStr (String tab "x"))]) = true /\
  spaceless
    (Dumps.dumps [("bar_value", VInt 730); ("tabs", VStr (String tab "x"))])
  = true.
Proof.
  split; [reflexivity |].
  apply X15_no_white_space_between_tokens. reflexivity.
Defined.

(** Two cursors select the same catalog entry only when they agree
    modulo 5. *)
Lemma catalog_entries_differ (i j : nat) :
  i < 5 -> j < 5 ->
  nth i build_frames [] = nth j build_frames [] -> i = j.
Proof.
  intros Hi Hj.
  destruct i as [| [| [| [| [| i]]]]]; try lia;
    destruct j as [| [| [| [| [| j]]]]]; try lia;
    intros H; try reflexivity; discriminate H.
Qed.

Lemma catalog_well_formed (k : nat) :
  well_formed (VDict (frame_at build_frames k)) = true.
Proof.
  assert (Hall : forallb (fun f => well_formed (VDict f)) build_frames = true)
    by reflexivity.
  rewrite forallb_forall in Hall. apply Hall. apply frame_at_in.
Qed.

(** X11. The stream of messages has period exactly five: the messages of
    two transmissions are equal exactly when their positions agree modulo
    5.  In particular two consecutive transmissions always differ. *)
Theorem X11_the_messages_have_period_five :
  forall i j : nat,
    (message i = message j <-> i mod 5 = j mod 5) /\
    message i <> message (S i).
Proof.
  assert (Hiff : forall i j, message i = message j <-> i mod 5 = j mod 5).
  { intros i j. split.
    - intros H. unfold message in H.
      apply wire_injective in H.
      + apply catalog_entries_differ; try (apply Nat.mod_upper_bound; lia).
        exact H.
      + apply catalog_well_formed.
      + apply catalog_frame_encodable.
      + apply catalog_well_formed.
      + apply catalog_frame_encodable.
    - intros H. unfold message, frame_at.
      change (length build_frames) with 5. rewrite H. reflexivity. }
  intros i j. split; [apply Hiff |].
  intros H. apply Hiff in H.
  pose proof (Nat.mod_upper_bound i 5 ltac:(lia)) as Hi.
  assert (Hs : S i mod 5 = (i mod 5 + 1) mod 5).
  { replace (S i) with (i + 1) by lia.
    rewrite <- Nat.Div0.add_mod_idemp_l. reflexivity. }
  rewrite Hs in H.
  destruct (Nat.eq_dec (i mod 5) 4) as [E | E].
  - rewrite E in H. change ((4 + 1) mod 5) with 0 in H. discriminate H.
  - rewrite (Nat.mod_small (i mod 5 + 1) 5) in H by lia. lia.
Qed.

Lemma X11_witness :
  2 mod 5 = 12 mod 5 /\ message 2 = message 12.
Proof.
  assert (H : 2 mod 5 = 12 mod 5) by reflexivity.
  split; [exact H |].
  apply (proj1 (X11_the_messages_have_period_five 2 12)). exact H.
Defined.

(** ** The order of the calls, and other catalogs *)

Lemma in_order_rounds (frames : list Frame.t) (secs : pyfloat) (n : nat) :
  forall (k : nat) (tail : trace),
    tail <> [Close] ->
    in_order Next_write (rounds frames secs k n ++ tail)
    = in_order Next_write tail.
Proof.
  induction n as [| n IH]; intros k tail Htail; cbn [rounds app];
    [reflexivity |].
  unfold round. cbn [app].
  rewrite <- (IH (S k) tail Htail).
  destruct (rounds frames secs (S k) n ++ tail) as [| e rest] eqn:E;
    reflexivity.
Qed.

Lemma in_order_rounds_close (frames : list Frame.t) (secs : pyfloat) (n : nat) :
  forall k : nat,
    in_order Next_write (rounds frames secs k n ++ [Close]) = true.
Proof.
  induction n as [| n IH]; intros k; cbn [rounds app]; [reflexivity |].
  unfold round. cbn [app].
  rewrite <- (IH (S k)).
  destruct (rounds frames secs (S k) n ++ [Close]) as [| e rest] eqn:E;
    reflexivity.
Qed.

Lemma in_order_turn (w : world) (frames : list Frame.t) (secs : pyfloat)
      (k : nat) (ext : trace) (e : exn) :
  turn w frames secs k = (ext, Some e) ->
  in_order Next_write (ext ++ [Close]) = true /\
  (ext = [] \/ ext ++ [Close] <> [Close]).
Proof.
  unfold turn, round. intros H.
  destruct (Dumps.raises (VDict (frame_at frames k)));
    [inversion H; split; [reflexivity | left; reflexivity] |].
  destruct (write_reply w k);
    [| inversion H; split; [reflexivity | right; discriminate] ..].
  destruct (flush_reply w k);
    [| inversion H; split; [reflexivity | right; discriminate] ..].
  destruct (sleep_error secs); [| destruct (sleep_signal w k)];
    inversion H; split; solve [reflexivity | right; discriminate].
Qed.

(** X1. The calls of every run come in one order, whatever the port,
    the operator and the catalog: first the opening, with the device,
    the baud rate and the timeout 1 of the command line; if it failed,
    nothing else; then write, flush, pause, write, flush, pause, ...,
    each call made only after the calls before it succeeded; after a
    call that did not succeed the only further event is the release; the
    release can come at any point, and nothing follows it. *)
Theorem X1_calls_come_in_order :
  forall (w : world) (frames : list Frame.t) (a : args) (fuel : nat),
    exists body : trace,
      fst (run_with w frames a fuel)
      = Open (device a) (baud a) 1 (serial_opens w) :: body /\
      (serial_opens w = false -> body = []) /\
      in_order Next_write body = true.
Proof.
  intros w frames a fuel. destruct (serial_opens w) eqn:Hopen.
  - destruct (run_with_cases w frames a fuel Hopen)
      as [Hrun | (n & ext & e & Hlt & Hcut & Hrun)]; rewrite Hrun; cbn [fst].
    + exists (rounds frames (delay a) 0 fuel).
      split; [reflexivity |]. split; [discriminate |].
      rewrite <- (List.app_nil_r (rounds _ _ _ _)).
      rewrite in_order_rounds; [reflexivity | discriminate].
    + exists (rounds frames (delay a) 0 n ++ ext ++ [Close]).
      split; [reflexivity |]. split; [discriminate |].
      destruct Hcut as [(_ & _ & -> & _) | (_ & Ht)].
      * apply in_order_rounds_close.
      * destruct (in_order_turn w frames (delay a) n ext e Ht)
          as [Hext [-> | Hne]].
        -- apply in_order_rounds_close.
        -- rewrite in_order_rounds; [exact Hext | exact Hne].
  - rewrite (run_with_refused w frames a fuel Hopen). exists [].
    split; [reflexivity |]. split; reflexivity.
Qed.

Lemma X1_witness :
  serial_opens no_device = false /\
  exists body : trace,
    fst (run_with no_device build_frames demo 3)
    = Open "/dev/pts/3" 115200 1 false :: body /\
    body = [].
Proof.
  split; [reflexivity |].
  destruct (X1_calls_come_in_order no_device build_frames demo 3)
    as (body & Hrun & Hnone & _).
  exists body. split; [exact Hrun | exact (Hnone eq_refl)].
Defined.

Lemma run_with_quiet (w : world) (frames : list Frame.t) (a : args) (n : nat) :
  frames <> [] ->
  encodable frames = true ->
  serial_opens w = true ->
  sleep_accepts (delay a) ->
  quiet_before w n = true ->
  run_with w frames a n = (opened a ++ rounds frames (delay a) 0 n, Running).
Proof.
  intros Hne Henc Hopen Hd Hq.
  rewrite (run_with_opened w frames a n Hopen).
  apply guarded_running.
  replace n with (n + 0) at 1 by lia.
  rewrite (loop_quiet w frames (delay a) 0 n Hne Henc Hd
             (opened a) 0 (in_step_opened a) Hq).
  reflexivity.
Qed.

Lemma serialisable_encodable (frames : list Frame.t) :
  forallb (fun f => serialisable (VDict f)) frames = true ->
  encodable frames = true.
Proof.
  unfold encodable. rewrite !forallb_forall. intros H f Hin.
  specialize (H f Hin). unfold serialisable in H.
  apply andb_prop in H. tauto.
Qed.

(** X8. The loop serves any catalog the same way.  For a catalog that
    is not empty and whose frames can be serialised, every run that
    opened the port starts by writing the message of [frames[0]]; the
    data handed to the port are, call after call, the messages of
    [frames[k % len(frames)]] for k = 0, 1, 2, ...; and an undisturbed run
    of [fuel] turns, with a delay that [time.sleep] accepts, is [fuel]
    rounds that deliver exactly the first [fuel] of these messages. *)
Theorem X8_any_catalog_is_sent_cyclically :
  forall (w : world) (frames : list Frame.t) (a : args) (fuel : nat),
    frames <> [] ->
    forallb (fun f => serialisable (VDict f)) frames = true ->
    serial_opens w = true ->
    (exists (r : reply) (rest : trace),
        fst (run_with w frames a (S fuel))
        = opened a ++ Write (wire (frame_at frames 0)) r :: rest) /\
    payloads (fst (run_with w frames a fuel))
    = map (fun k => wire (frame_at frames k))
          (seq 0 (length (payloads (fst (run_with w frames a fuel))))) /\
    (sleep_accepts (delay a) -> quiet_before w fuel = true ->
     fst (run_with w frames a fuel)
     = opened a ++ rounds frames (delay a) 0 fuel /\
     delivered (fst (run_with w frames a fuel))
     = map (fun k => wire (frame_at frames k)) (seq 0 fuel)).
Proof.
  intros w frames a fuel Hne Hser Hopen.
  pose proof (serialisable_encodable frames Hser) as Henc.
  split; [| split].
  - destruct (run_with_shape w frames a (S fuel) Hne Hopen)
      as (n & Hle & [[Hrun Hn] | (ext & e & Ht & Hrun)]).
    + subst n. rewrite Hrun. cbn [fst rounds round app].
      eexists; eexists; reflexivity.
    + rewrite Hrun. cbn [fst]. destruct n as [| n].
      * destruct (turn_head w frames (delay a) 0
                    (encodable_frame_at frames 0 Hne Henc))
          as (r & rest & Hhead).
        rewrite Ht in Hhead. cbn [fst] in Hhead. subst ext.
        cbn [rounds app]. eexists; eexists; reflexivity.
      * cbn [rounds round app]. eexists; eexists; reflexivity.
  - destruct (run_with_shape w frames a fuel Hne Hopen)
      as (n & Hle & [[Hrun Hn] | (ext & e & Ht & Hrun)]); rewrite Hrun;
      cbn [fst].
    + rewrite payloads_app, payloads_rounds. cbn [opened payloads app].
      rewrite length_map, length_seq. reflexivity.
    + rewrite !payloads_app, payloads_rounds.
      pose proof (turn_payloads w frames (delay a) n
                    (encodable_frame_at frames n Hne Henc)) as Hp.
      rewrite Ht in Hp. cbn [fst] in Hp. rewrite Hp.
      cbn [opened payloads app].
      rewrite !length_app, length_map, length_seq. cbn [length].
      rewrite Nat.add_1_r, seq_S, map_app. reflexivity.
  - intros Hd Hq.
    rewrite (run_with_quiet w frames a fuel Hne Henc Hopen Hd Hq). cbn [fst].
    split; [reflexivity |].
    rewrite delivered_app, delivered_rounds. reflexivity.
Qed.

Lemma X8_witness :
  delivered (fst (run_with calm two_frames demo 3))
  = [wire (frame_at two_frames 0); wire (frame_at two_frames 1);
     wire (frame_at two_frames 0)].
Proof.
  assert (Hne : two_frames <> []) by discriminate.
  assert (Hd : sleep_accepts (delay demo)) by reflexivity.
  apply (proj2 (proj2 (X8_any_catalog_is_sent_cyclically
                         calm two_frames demo 3 Hne eq_refl eq_refl))
           Hd eq_refl).
Defined.

(** X12. Serialisation loses nothing on the values of the model: for
    every value made of [None], booleans, integers of at most 4300
    digits, texts, lists and text-keyed dicts, nested at most 100 deep
    and with no key repeated in a dict, decoding its compact JSON text
    gives the value back; quotes, backslashes, control characters and
    the characters above ASCII inside a text come back as they were. *)
Theorem X12_round_trip_of_serialisable_values :
  forall v : value,
    well_formed v = true ->
    serialisable v = true ->
    Loads.loads (Dumps.encode_value v) = Some v.
Proof.
  intros v Hwf Hser. unfold serialisable in Hser.
  apply andb_prop in Hser. destruct Hser as [Hok _].
  apply negb_true_iff in Hok. apply loads_encode_value; assumption.
Qed.

Lemma X12_witness :
  Loads.loads
    (Dumps.encode_value
       (VDict [("line1", VStr (String dquote (String backslash (String newline "x"))));
               ("bars", VList [VInt (-7); VNull; VDict []; VBool true])]))
  = Some
      (VDict [("line1", VStr (String dquote (String backslash (String newline "x"))));
              ("bars", VList [VInt (-7); VNull; VDict []; VBool true])]).
Proof.
  apply X12_round_trip_of_serialisable_values; reflexivity.
Defined.
